(** * kv/passwords.go: the password service over a transactional key-value store

    A shallow embedding of [src/kv/passwords.go].  The service functions
    ([CompareAndSetPassword], [SetPassword], [ComparePassword],
    [getPasswordHash], [compareUserPassword], [setPasswordHash],
    [setPasswordHashTx], [generatePasswordHash]) and the [Bcrypt] adapter are
    transcribed from the Go source, statement by statement, in a monad that
    threads the world the service runs in and records every call it makes
    on a collaborator.

    The collaborators themselves are not part of the file: the transactional
    store ([View], [Update], [Tx.Bucket], [Bucket.Get], [Bucket.Put]), the
    identity lookup ([findUserByID]), the identifier encoding ([ID.Encode],
    [ID.String]) and the bcrypt primitive.  The store and the lookup are
    modelled from their contracts; the encoding and the primitive are taken
    as parameters. *)

From Stdlib Require Import ZArith List String Ascii Bool Lia.
From stdpp Require Import gmap strings pretty.

Local Open Scope string_scope.

(* ===================================================================== *)
(** ** Go values *)
(* ===================================================================== *)

(** [influxdb.ID] is a [uint64]. *)
Definition ID := N.

(** A Go call returning [(value, error)]: either the value, or a non-nil
    error of type [E]. *)
Inductive result (E A : Type) : Type :=
| Ok (a : A)
| Fail (e : E).
Arguments Ok {E A} a.
Arguments Fail {E A} e.

(** The error codes of [influxdb.Error] the file uses. *)
Inductive ErrorCode := EForbidden | EInvalid | EUnavailable | EInternal.

(** [influxdb.Error], with the fields the file sets. *)
Record Error := mkError { Code : ErrorCode; Msg : string; Op : string }.

(** A Go [error] as the service returns it: an [*influxdb.Error] built by this
    file, or the error value of a collaborator handed back as it came (its
    text). *)
Inductive error :=
| Platform (e : Error)
| Foreign (msg : string).
Coercion Platform : Error >-> error.

(** [MinPasswordLength] is the shortest password we allow into the system. *)
Definition MinPasswordLength : nat := 8.

Definition EIncorrectPassword : Error :=
  {| Code := EForbidden; Msg := "your username or password is incorrect"; Op := "" |}.

Definition EIncorrectUser : Error :=
  {| Code := EForbidden; Msg := "your userID is incorrect"; Op := "" |}.

Definition EShortPassword : Error :=
  {| Code := EInvalid; Msg := "passwords must be at least 8 characters long"; Op := "" |}.

(** [fmt.Sprintf] with [%v] on a collaborator's error prints its text. *)
Definition UnavailablePasswordServiceError (err : string) : Error :=
  {| Code := EUnavailable;
     Msg := "Unable to connect to password service. Please try again; Err: " +:+ err;
     Op := "kv/setPassword" |}.

Definition CorruptUserIDError (userID : string) (err : string) : Error :=
  {| Code := EInternal;
     Msg := "User ID " +:+ userID +:+ " has been corrupted; Err: " +:+ err;
     Op := "kv/setPassword" |}.

Definition InternalPasswordHashError (err : string) : Error :=
  {| Code := EInternal;
     Msg := "Unable to generate password; Err: " +:+ err;
     Op := "kv/setPassword" |}.

Definition userpasswordBucket : string := "userspasswordv1".

(* ===================================================================== *)
(** ** The world of the service *)
(* ===================================================================== *)

(** Modelled from the spec: the state of the transactional store (spec §6,
    glossary: named buckets of key-value pairs) together with the user
    records the identity lookup resolves identifiers against.  The store's
    implementation is not in [src/]. *)
Record Store := mkStore {
  users : gmap ID string;
  buckets : gmap string (gmap string string)
}.

(** The calls on the store that can fail for reasons of the store's own. *)
Inductive StoreCall :=
| BeginView | BeginUpdate | CommitUpdate | OpenBucket | ReadKey | WriteKey.

(** The world: the store, which store calls currently fail (and with which
    error text), and how many random draws the hashing strategy has made. *)
Record World := mkWorld {
  store : Store;
  faults : StoreCall -> option string;
  rand : nat
}.

Definition with_store (w : World) (st : Store) : World :=
  {| store := st; faults := faults w; rand := rand w |}.

(** Every call the service makes on a collaborator, in the order made. *)
Inductive Event :=
| EvGenerate (password : string) (cost : Z)
| EvCompare (hashedPassword password : string)
| EvView
| EvViewEnd
| EvUpdate
| EvCommit
| EvRollback
| EvFindUser (userID : ID) (found : bool)
| EvBucket (name : string)
| EvGet (bucket key : string)
| EvPut (bucket key value : string).

(** What running an action gives: its result, the world it leaves and the
    calls it made. *)
Record Outcome (E A : Type) := mkOutcome {
  res : result E A;
  final : World;
  trace : list Event
}.
Arguments mkOutcome {E A} res final trace.
Arguments res {E A} o.
Arguments final {E A} o.
Arguments trace {E A} o.

(** An action with errors of type [E]. *)
Definition M (E A : Type) : Type := World -> Outcome E A.

Definition ret {E A} (a : A) : M E A :=
  fun w => mkOutcome (Ok a) w [].

Definition fail {E A} (e : E) : M E A :=
  fun w => mkOutcome (Fail e) w [].

Definition bind {E A B} (m : M E A) (k : A -> M E B) : M E B :=
  fun w =>
    match m w with
    | mkOutcome (Ok a) w1 t1 =>
        let 'mkOutcome r w2 t2 := k a w1 in mkOutcome r w2 (t1 ++ t2)
    | mkOutcome (Fail e) w1 t1 => mkOutcome (Fail e) w1 t1
    end.

(** [v, err := call(); if err != nil { return wrap(err) }] *)
Definition orFail {A} (m : M string A) (wrap : string -> error) : M error A :=
  fun w =>
    match m w with
    | mkOutcome (Ok a) w1 t1 => mkOutcome (Ok a) w1 t1
    | mkOutcome (Fail e) w1 t1 => mkOutcome (Fail (wrap e)) w1 t1
    end.

(** A pure call returning [(value, error)]. *)
Definition lift {A} (r : result string A) : M string A :=
  fun w => mkOutcome r w [].

Notation "'let*' x := m 'in' k" := (bind m (fun x => k))
  (at level 10, x name, m at level 100, k at level 200, only parsing).
Notation "m 'or_return' wrap" := (orFail m wrap) (at level 60).

(* ===================================================================== *)
(** ** The transactional store and the identity lookup *)
(* ===================================================================== *)

(** A transaction handle: what [View] and [Update] pass to their closure.
    While the closure runs, the store of the world is the transaction's
    working state. *)
Record Tx := mkTx { writable : bool }.

(** A bucket handle, as [Tx.Bucket] returns it. *)
Record Bucket := mkBucket { bucket_name : string; bucket_writable : bool }.

(** Modelled from the spec: [Tx.Bucket(name) -> (bucket, error)] of the store
    (§6), which is not in [src/].  The call fails when the store cannot open
    buckets; a bucket never written to is empty. *)
Definition Tx_Bucket (tx : Tx) (name : string) : M string Bucket :=
  fun w =>
    mkOutcome
      match faults w OpenBucket with
      | Some err => Fail err
      | None => Ok {| bucket_name := name; bucket_writable := writable tx |}
      end
      w [EvBucket name].

(** The value stored under [key] in the bucket [name], if any. *)
Definition stored (st : Store) (name key : string) : option string :=
  buckets st !! name ≫= fun b => b !! key.

(** Modelled from the spec: [Bucket.Get(key) -> (value, error)] of the store
    (§6, §4.2: not found and store error are both errors, with different
    texts), which is not in [src/]. *)
Definition Bucket_Get (b : Bucket) (key : string) : M string string :=
  fun w =>
    mkOutcome
      match faults w ReadKey with
      | Some err => Fail err
      | None =>
          match stored (store w) (bucket_name b) key with
          | Some value => Ok value
          | None => Fail "key not found"
          end
      end
      w [EvGet (bucket_name b) key].

(** The store with [value] under [key] in the bucket [name]. *)
Definition store_put (st : Store) (name key value : string) : Store :=
  {| users := users st;
     buckets := <[name := <[key := value]> (default ∅ (buckets st !! name))]> (buckets st) |}.

(** Modelled from the spec: [Bucket.Put(key, value) -> error] of the store
    (§6), which is not in [src/].  It fails in a read-only transaction and
    when the store cannot write; otherwise the transaction holds the new
    value under the key, in place of any earlier one. *)
Definition Bucket_Put (b : Bucket) (key value : string) : M string unit :=
  fun w =>
    if negb (bucket_writable b) then
      mkOutcome (Fail "tx not writable") w [EvPut (bucket_name b) key value]
    else
      match faults w WriteKey with
      | Some err => mkOutcome (Fail err) w [EvPut (bucket_name b) key value]
      | None =>
          mkOutcome (Ok tt)
                    (with_store w (store_put (store w) (bucket_name b) key value))
                    [EvPut (bucket_name b) key value]
      end.

(** Modelled from the spec: [View(ctx, fn(readTx) error) error] of the store
    (§6, §5), which is not in [src/].  A store that cannot begin the
    transaction returns its own error and does not run [fn]; otherwise [fn]
    runs on a read-only transaction, whatever it did to its working state is
    dropped, and [fn]'s result is the result.  (The Go closure hands its
    value back through a captured variable; here it returns it.) *)
Definition View {A} (fn : Tx -> M error A) : M error A :=
  fun w =>
    match faults w BeginView with
    | Some err => mkOutcome (Fail (Foreign err)) w [EvView]
    | None =>
        let 'mkOutcome r w1 t1 := fn {| writable := false |} w in
        mkOutcome r (with_store w1 (store w)) (EvView :: t1 ++ [EvViewEnd])
    end.

(** Modelled from the spec: [Update(ctx, fn(writeTx) error) error] of the
    store (§6, §5: one atomic transaction, no partial writes), which is not
    in [src/].  A store that cannot begin the transaction returns its own
    error and does not run [fn]; when [fn] fails the transaction is rolled
    back and [fn]'s error returned; when [fn] succeeds the transaction is
    committed, unless the commit itself fails, which rolls it back and
    returns the store's error. *)
Definition Update {A} (fn : Tx -> M error A) : M error A :=
  fun w =>
    match faults w BeginUpdate with
    | Some err => mkOutcome (Fail (Foreign err)) w [EvUpdate]
    | None =>
        match fn {| writable := true |} w with
        | mkOutcome (Fail e) w1 t1 =>
            mkOutcome (Fail e) (with_store w1 (store w)) (EvUpdate :: t1 ++ [EvRollback])
        | mkOutcome (Ok a) w1 t1 =>
            match faults w CommitUpdate with
            | Some err =>
                mkOutcome (Fail (Foreign err)) (with_store w1 (store w))
                          (EvUpdate :: t1 ++ [EvRollback])
            | None => mkOutcome (Ok a) w1 (EvUpdate :: t1 ++ [EvCommit])
            end
        end
    end.

(** Modelled from the spec: [FindUserByID(ctx, tx, userID) -> (userRecord,
    error)] of the identity lookup (§6), which is not in [src/]: the user's
    record as the transaction sees it, or an error when there is none. *)
Definition findUserByID (tx : Tx) (userID : ID) : M string string :=
  fun w =>
    match users (store w) !! userID with
    | Some user => mkOutcome (Ok user) w [EvFindUser userID true]
    | None => mkOutcome (Fail "user not found") w [EvFindUser userID false]
    end.

(* ===================================================================== *)
(** ** The hashing strategy *)
(* ===================================================================== *)

(** [Crypt] represents a cryptographic hashing function.  Generating a digest
    draws randomness (the salt): the third argument of
    [GenerateFromPassword] is the number of the draw. *)
Record Crypt := mkCrypt {
  CompareHashAndPassword : string -> string -> result string unit;
  GenerateFromPassword : string -> Z -> nat -> result string string
}.

(** A call of [hasher.GenerateFromPassword(password, cost)]. *)
Definition Crypt_Generate (hasher : Crypt) (password : string) (cost : Z) : M string string :=
  fun w =>
    mkOutcome (GenerateFromPassword hasher password cost (rand w))
              {| store := store w; faults := faults w; rand := S (rand w) |}
              [EvGenerate password cost].

(** A call of [hasher.CompareHashAndPassword(hashedPassword, password)]. *)
Definition Crypt_Compare (hasher : Crypt) (hashedPassword password : string) : M string unit :=
  fun w =>
    mkOutcome (CompareHashAndPassword hasher hashedPassword password) w
              [EvCompare hashedPassword password].

(** What the file imports and [src/] does not hold: the identifier's
    encoding ([influxdb.ID.Encode], [influxdb.ID.String]) and
    [golang.org/x/crypto/bcrypt] (its cost constants, its two functions). *)
Class Imports := {
  ID_Encode : ID -> result string string;
  ID_String : ID -> string;
  bcrypt_MinCost : Z;
  bcrypt_DefaultCost : Z;
  bcrypt_CompareHashAndPassword : string -> string -> result string unit;
  bcrypt_GenerateFromPassword : string -> Z -> nat -> result string string
}.

Section Passwords.

Context `{Imports}.

(** [DefaultCost] is the cost that will actually be set if a cost below
    [MinCost] is passed into [GenerateFromPassword]. *)
Definition DefaultCost : Z := bcrypt_DefaultCost.

(** [Bcrypt] implements [Crypt] using golang.org/x/crypto/bcrypt. *)
Definition Bcrypt_CompareHashAndPassword (hashedPassword password : string)
  : result string unit :=
  bcrypt_CompareHashAndPassword hashedPassword password.

(** If the cost given is less than [MinCost], the cost will be set to
    [DefaultCost], instead. *)
Definition Bcrypt_GenerateFromPassword (password : string) (cost : Z) (draw : nat)
  : result string string :=
  let cost := if (cost <? bcrypt_MinCost)%Z then DefaultCost else cost in
  bcrypt_GenerateFromPassword password cost draw.

Definition Bcrypt : Crypt :=
  {| CompareHashAndPassword := Bcrypt_CompareHashAndPassword;
     GenerateFromPassword := Bcrypt_GenerateFromPassword |}.

(* ===================================================================== *)
(** ** The service *)
(* ===================================================================== *)

(** The part of [Service] the file reads: the optional hashing strategy
    ([s.Hash], nil when unset).  Its store, [s.kv], is the store of the
    world. *)
Record Service := mkService { Hash : option Crypt }.

(** [hasher := s.Hash; if hasher == nil { hasher = &Bcrypt{} }] *)
Definition hasherOf (s : Service) : Crypt :=
  match Hash s with
  | Some hasher => hasher
  | None => Bcrypt
  end.

Definition generatePasswordHash (s : Service) (password : string) : M error string :=
  if (String.length password <? MinPasswordLength)%nat then
    fail (Platform EShortPassword)
  else
    let hasher := hasherOf s in
    let* hash := Crypt_Generate hasher password DefaultCost
              or_return (fun err => InternalPasswordHashError err) in
    ret hash.

Definition setPasswordHashTx (s : Service) (tx : Tx) (userID : ID) (hash : string)
  : M error unit :=
  let* encodedID := lift (ID_Encode userID)
                 or_return (fun err => CorruptUserIDError (ID_String userID) err) in
  let* _ := findUserByID tx userID or_return (fun _ => EIncorrectUser) in
  let* b := Tx_Bucket tx userpasswordBucket
         or_return (fun err => UnavailablePasswordServiceError err) in
  let* _ := Bucket_Put b encodedID hash
         or_return (fun err => UnavailablePasswordServiceError err) in
  ret tt.

Definition setPasswordHash (s : Service) (userID : ID) (hash : string) : M error unit :=
  Update (fun tx => setPasswordHashTx s tx userID hash).

Definition getPasswordHash (s : Service) (userID : ID) : M error string :=
  View (fun tx =>
    let* encodedID := lift (ID_Encode userID)
                   or_return (fun err => CorruptUserIDError (ID_String userID) err) in
    let* _ := findUserByID tx userID or_return (fun _ => EIncorrectUser) in
    let* b := Tx_Bucket tx userpasswordBucket
           or_return (fun err => UnavailablePasswordServiceError err) in
    let* passwordHash := Bucket_Get b encodedID or_return (fun _ => EIncorrectPassword) in
    ret passwordHash).

Definition compareUserPassword (s : Service) (userID : ID) (password : string)
  : M error unit :=
  let* passwordHash := getPasswordHash s userID in
  let hasher := hasherOf s in
  let* _ := Crypt_Compare hasher passwordHash password or_return (fun _ => EIncorrectPassword) in
  ret tt.

(** [CompareAndSetPassword] checks the password and if they match updates to
    the new password. *)
Definition CompareAndSetPassword (s : Service) (userID : ID) (old new : string)
  : M error unit :=
  let* newHash := generatePasswordHash s new in
  let* _ := compareUserPassword s userID old in
  setPasswordHash s userID newHash.

(** [SetPassword] overrides the password of a known user. *)
Definition SetPassword (s : Service) (userID : ID) (password : string) : M error unit :=
  let* hash := generatePasswordHash s password in
  setPasswordHash s userID hash.

(** [ComparePassword] checks if the password matches the password recorded.
    Passwords that do not match return errors. *)
Definition ComparePassword (s : Service) (userID : ID) (password : string) : M error unit :=
  compareUserPassword s userID password.

End Passwords.

(* ===================================================================== *)
(** ** Notions the statements use *)
(* ===================================================================== *)

(** The world after one more random draw. *)
Definition after_draw (w : World) : World :=
  {| store := store w; faults := faults w; rand := S (rand w) |}.

(** A trace that holds a call of [Bucket.Put]. *)
Definition puts (t : list Event) : Prop :=
  exists bucket key value, In (EvPut bucket key value) t.

(** The one shape of a trace with a write, for the user [userID] and the
    plaintext [password] in the world [w]: the plaintext has the minimum
    length, the user resolves, and the trace ends in an update transaction
    that looks the user up, finds it, opens the credential bucket and puts,
    under the encoded identifier, the digest generated from the plaintext;
    nothing before that transaction puts anything. *)
Definition guarded_put `{Imports} (s : Service) (userID : ID) (password : string)
    (w : World) (t : list Event) : Prop :=
  (MinPasswordLength <= String.length password)%nat
  /\ exists (user key digest : string) (before : list Event) (closing : Event),
      users (store w) !! userID = Some user
      /\ ID_Encode userID = Ok key
      /\ GenerateFromPassword (hasherOf s) password DefaultCost (rand w) = Ok digest
      /\ t = (before
             ++ [EvUpdate; EvFindUser userID true; EvBucket userpasswordBucket;
                 EvPut userpasswordBucket key digest; closing])%list
      /\ ~ puts before.

(** The calls that change the store or open a transaction that may. *)
Definition mutating (e : Event) : bool :=
  match e with
  | EvUpdate | EvCommit | EvRollback | EvPut _ _ _ => true
  | _ => false
  end.

(** [n] calls of [ComparePassword] in a row: their results, and the world
    after the last. *)
Fixpoint ComparePassword_times `{Imports} (n : nat) (s : Service) (userID : ID)
    (password : string) (w : World) : list (result error unit) * World :=
  match n with
  | O => ([], w)
  | S n' =>
      let o := ComparePassword s userID password w in
      let (rs, w') := ComparePassword_times n' s userID password (final o) in
      (res o :: rs, w')
  end.

(** A world whose store can be read: read-only transactions begin and keys
    can be read. *)
Definition readable (w : World) : Prop :=
  faults w BeginView = None /\ faults w ReadKey = None.

(* ===================================================================== *)
(** ** A concrete world to run the service in *)
(* ===================================================================== *)

(** An instance of the imports, a test double in the sense of the [Crypt]
    interface: identifier 0 is invalid and does not encode, any other
    identifier encodes to its decimal text; a digest is one salt character
    (the draw) followed by the password; costs above 31 are refused. *)
Module Sample.

Definition encode (id : ID) : result string string :=
  if (id =? 0)%N then Fail "invalid ID" else Ok (pretty id).

Definition compare (hashedPassword password : string) : result string unit :=
  match hashedPassword with
  | String _ digest =>
      if String.eqb digest password then Ok tt
      else Fail "hashedPassword is not the hash of the given password"
  | EmptyString => Fail "hashedSecret too short to be a bcrypted password"
  end.

Definition generate (password : string) (cost : Z) (draw : nat) : result string string :=
  if (31 <? cost)%Z then Fail "cost is outside allowed range"
  else Ok (String (ascii_of_nat draw) password).

Definition imports : Imports :=
  {| ID_Encode := encode;
     ID_String := pretty;
     bcrypt_MinCost := 4;
     bcrypt_DefaultCost := 10;
     bcrypt_CompareHashAndPassword := compare;
     bcrypt_GenerateFromPassword := generate |}.

(** A service with no hashing strategy of its own: it falls back on
    [Bcrypt]. *)
Definition svc : Service := {| Hash := None |}.

(** A hashing strategy that cannot generate digests. *)
Definition broken : Crypt :=
  {| CompareHashAndPassword := compare;
     GenerateFromPassword := fun _ _ _ => Fail "no entropy" |}.

Definition no_faults : StoreCall -> option string := fun _ => None.

(** Users 1 and 2 exist; nobody has a password yet. *)
Definition store0 : Store :=
  {| users := {[ 1%N := "alice"; 2%N := "bob" ]}; buckets := ∅ |}.

Definition w0 : World := {| store := store0; faults := no_faults; rand := 0 |}.

(** The world after user 1 has set a password in [w0]. *)
Definition w1 : World :=
  final (SetPassword (H := imports) svc 1%N "correcthorsebattery" w0).

(** [w1] with a store that cannot read keys. *)
Definition w1_unreadable : World :=
  {| store := store w1;
     faults := fun c => match c with ReadKey => Some "i/o timeout" | _ => None end;
     rand := rand w1 |}.

(** [w0] with a store that cannot commit. *)
Definition w0_no_commit : World :=
  {| store := store0;
     faults := fun c => match c with CommitUpdate => Some "tx closed" | _ => None end;
     rand := 0 |}.

(** The store of [w1] in a world that has made no draw yet. *)
Definition w1_fresh : World :=
  {| store := store w1; faults := no_faults; rand := 0 |}.


(** A primitive that, as bcrypt does, reads no more than the first 72 bytes
    of a password: the digest is one salt character followed by those
    bytes. *)
Definition generate72 (password : string) (cost : Z) (draw : nat) : result string string :=
  if (31 <? cost)%Z then Fail "cost is outside allowed range"
  else Ok (String (ascii_of_nat draw) (substring 0 72 password)).

Definition compare72 (hashedPassword password : string) : result string unit :=
  compare hashedPassword (substring 0 72 password).

Definition imports72 : Imports :=
  {| ID_Encode := encode;
     ID_String := pretty;
     bcrypt_MinCost := 4;
     bcrypt_DefaultCost := 10;
     bcrypt_CompareHashAndPassword := compare72;
     bcrypt_GenerateFromPassword := generate72 |}.

(** 72 bytes, and two distinct passwords of 73 bytes that begin with them. *)
Definition seventy_two : string :=
  "aaaaaaaaaaaaaaaaaaaaaaaaaaaaaaaaaaaaaaaaaaaaaaaaaaaaaaaaaaaaaaaaaaaaaaaa".

Definition old73 : string := seventy_two +:+ "X".

Definition new73 : string := seventy_two +:+ "Y".

(** The world after user 1 has set the password [old73] in [w0], with the
    primitive that reads 72 bytes. *)
Definition w1_72 : World :=
  final (SetPassword (H := imports72) svc 1%N old73 w0).

End Sample.

Example SetPassword_sample :
  res (SetPassword (H := Sample.imports) Sample.svc 1%N "correcthorsebattery" Sample.w0) = Ok tt
  /\ stored (store Sample.w1) userpasswordBucket "1"
     = Some (String (ascii_of_nat 0) "correcthorsebattery")
  /\ trace (SetPassword (H := Sample.imports) Sample.svc 1%N "correcthorsebattery" Sample.w0)
     = [EvGenerate "correcthorsebattery" 10; EvUpdate; EvFindUser 1%N true;
        EvBucket userpasswordBucket;
        EvPut userpasswordBucket "1" (String (ascii_of_nat 0) "correcthorsebattery");
        EvCommit].
Proof. vm_compute. auto. Qed.

Example ComparePassword_sample :
  res (ComparePassword (H := Sample.imports) Sample.svc 1%N "correcthorsebattery" Sample.w1) = Ok tt
  /\ res (ComparePassword (H := Sample.imports) Sample.svc 1%N "wrongpassword" Sample.w1)
     = Fail (Platform EIncorrectPassword)
  /\ res (ComparePassword (H := Sample.imports) Sample.svc 2%N "correcthorsebattery" Sample.w1)
     = Fail (Platform EIncorrectPassword)
  /\ res (ComparePassword (H := Sample.imports) Sample.svc 3%N "correcthorsebattery" Sample.w1)
     = Fail (Platform EIncorrectUser).
Proof. vm_compute. auto. Qed.

(** A hashing strategy that fails is reported before the user is looked
    up, also for a user that does not exist. *)
Example SetPassword_hasher_failure :
  SetPassword (H := Sample.imports) {| Hash := Some Sample.broken |} 3%N
    "correcthorsebattery" Sample.w0
  = mkOutcome (Fail (Platform (InternalPasswordHashError "no entropy")))
      (after_draw Sample.w0) [EvGenerate "correcthorsebattery" 10].
Proof. vm_compute. reflexivity. Qed.

(** A store that cannot read keys: the comparison fails as a wrong
    password does. *)
Example ComparePassword_unreadable :
  res (ComparePassword (H := Sample.imports) Sample.svc 1%N "correcthorsebattery"
         Sample.w1_unreadable)
  = Fail (Platform EIncorrectPassword).
Proof. vm_compute. reflexivity. Qed.

(* ===================================================================== *)
(** ** Running the service symbolically *)
(* ===================================================================== *)

Ltac unfold_service :=
  unfold CompareAndSetPassword, SetPassword, ComparePassword,
    compareUserPassword, getPasswordHash, setPasswordHash, setPasswordHashTx,
    generatePasswordHash in *.

Ltac unfold_calls :=
  unfold View, Update, Tx_Bucket, Bucket_Get, Bucket_Put, findUserByID,
    Crypt_Generate, Crypt_Compare, bind, orFail, lift, ret, fail in *.

(** Case analysis on a scrutinee that is not itself a case analysis. *)
Ltac split_match :=
  match goal with
  | |- context [match ?x with _ => _ end] =>
      lazymatch x with
      | context [match _ with _ => _ end] => fail
      | _ => destruct x eqn:?
      end
  | H : context [match ?x with _ => _ end] |- _ =>
      lazymatch x with
      | context [match _ with _ => _ end] => fail
      | _ => destruct x eqn:?
      end
  end.

Ltac crunch :=
  unfold_service; unfold_calls; cbn in *;
  repeat (split_match; cbn in *; simplify_eq; cbn in * ).

Arguments store_put : simpl never.
Arguments stored : simpl never.

Lemma stored_store_put st name key value :
  stored (store_put st name key value) name key = Some value.
Proof.
  unfold stored, store_put; simpl.
  rewrite lookup_insert_eq; simpl. apply lookup_insert_eq.
Qed.

Lemma generatePasswordHash_short `{Imports} s password w :
  (String.length password < MinPasswordLength)%nat ->
  generatePasswordHash s password w = mkOutcome (Fail (Platform EShortPassword)) w [].
Proof.
  intros Hlen. apply Nat.ltb_lt in Hlen.
  unfold generatePasswordHash. rewrite Hlen. reflexivity.
Qed.

Lemma generatePasswordHash_long `{Imports} s password w :
  (MinPasswordLength <= String.length password)%nat ->
  generatePasswordHash s password w
  = mkOutcome
      match GenerateFromPassword (hasherOf s) password DefaultCost (rand w) with
      | Ok hash => Ok hash
      | Fail err => Fail (Platform (InternalPasswordHashError err))
      end
      (after_draw w) [EvGenerate password DefaultCost].
Proof.
  intros Hlen. apply Nat.ltb_ge in Hlen.
  unfold generatePasswordHash. rewrite Hlen.
  unfold_calls. destruct (GenerateFromPassword _ _ _ _); reflexivity.
Qed.

Lemma compareUserPassword_final `{Imports} s userID password w :
  final (compareUserPassword s userID password w) = w.
Proof. destruct w. crunch; reflexivity. Qed.

(** Comparing reads the store and the faults of the world, nothing else. *)
Lemma compareUserPassword_rand `{Imports} s userID password w n :
  res (compareUserPassword s userID password
         {| store := store w; faults := faults w; rand := n |})
  = res (compareUserPassword s userID password w)
  /\ trace (compareUserPassword s userID password
         {| store := store w; faults := faults w; rand := n |})
  = trace (compareUserPassword s userID password w).
Proof. destruct w. crunch; auto. Qed.

(** The run of a comparison that gets as far as the stored digest. *)
Lemma compareUserPassword_run `{Imports} s userID password w key user digest :
  faults w BeginView = None ->
  ID_Encode userID = Ok key ->
  users (store w) !! userID = Some user ->
  faults w OpenBucket = None ->
  faults w ReadKey = None ->
  stored (store w) userpasswordBucket key = Some digest ->
  compareUserPassword s userID password w
  = mkOutcome
      match CompareHashAndPassword (hasherOf s) digest password with
      | Ok _ => Ok tt
      | Fail _ => Fail (Platform EIncorrectPassword)
      end
      w
      [EvView; EvFindUser userID true; EvBucket userpasswordBucket;
       EvGet userpasswordBucket key; EvViewEnd; EvCompare digest password].
Proof.
  intros Hview Henc Huser Hopen Hread Hget. destruct w.
  unfold_service; unfold_calls; cbn in *.
  rewrite Hview, Henc; cbn. rewrite Huser; cbn. rewrite Hopen; cbn.
  rewrite Hread, Hget; cbn.
  destruct (CompareHashAndPassword _ _ _); reflexivity.
Qed.

(** A comparison that succeeds got as far as the stored digest, and the
    hashing strategy accepted the password against it. *)
Lemma compareUserPassword_Ok_inv `{Imports} s userID password w :
  res (compareUserPassword s userID password w) = Ok tt ->
  exists key user digest,
    faults w BeginView = None /\ ID_Encode userID = Ok key
    /\ users (store w) !! userID = Some user
    /\ faults w OpenBucket = None /\ faults w ReadKey = None
    /\ stored (store w) userpasswordBucket key = Some digest
    /\ CompareHashAndPassword (hasherOf s) digest password = Ok tt.
Proof.
  intros Hok. destruct w. crunch.
  match goal with u : unit |- _ => destruct u end.
  eauto 12.
Qed.

(** A write of a digest that succeeds resolved the user and put the digest
    under the encoded identifier; nothing else of the world changed. *)
Lemma setPasswordHash_Ok_inv `{Imports} s userID hash w :
  res (setPasswordHash s userID hash w) = Ok tt ->
  exists key user,
    ID_Encode userID = Ok key
    /\ users (store w) !! userID = Some user
    /\ faults w OpenBucket = None
    /\ final (setPasswordHash s userID hash w)
       = with_store w (store_put (store w) userpasswordBucket key hash).
Proof.
  intros Hok. destruct w. crunch. eauto 8.
Qed.

(** A write of a digest that fails leaves the store as it was. *)
Lemma setPasswordHash_Fail_store `{Imports} s userID hash w e :
  res (setPasswordHash s userID hash w) = Fail e ->
  final (setPasswordHash s userID hash w) = w.
Proof.
  intros Hfail. destruct w. crunch; reflexivity.
Qed.

(** The two operations that write, once the new password is long enough:
    the digest is generated first, whatever comes after. *)
Lemma SetPassword_long `{Imports} s userID password w :
  (MinPasswordLength <= String.length password)%nat ->
  SetPassword s userID password w
  = match GenerateFromPassword (hasherOf s) password DefaultCost (rand w) with
    | Ok hash =>
        let 'mkOutcome r w2 t2 := setPasswordHash s userID hash (after_draw w) in
        mkOutcome r w2 (EvGenerate password DefaultCost :: t2)
    | Fail err =>
        mkOutcome (Fail (Platform (InternalPasswordHashError err))) (after_draw w)
                  [EvGenerate password DefaultCost]
    end.
Proof.
  intros Hlen. unfold SetPassword, bind.
  rewrite generatePasswordHash_long by assumption.
  destruct (GenerateFromPassword _ _ _ _); reflexivity.
Qed.

Lemma CompareAndSetPassword_long `{Imports} s userID old new w :
  (MinPasswordLength <= String.length new)%nat ->
  CompareAndSetPassword s userID old new w
  = match GenerateFromPassword (hasherOf s) new DefaultCost (rand w) with
    | Ok newHash =>
        match compareUserPassword s userID old (after_draw w) with
        | mkOutcome (Ok _) w1 t1 =>
            let 'mkOutcome r w2 t2 := setPasswordHash s userID newHash w1 in
            mkOutcome r w2 (EvGenerate new DefaultCost :: t1 ++ t2)
        | mkOutcome (Fail e) w1 t1 =>
            mkOutcome (Fail e) w1 (EvGenerate new DefaultCost :: t1)
        end
    | Fail err =>
        mkOutcome (Fail (Platform (InternalPasswordHashError err))) (after_draw w)
                  [EvGenerate new DefaultCost]
    end.
Proof.
  intros Hlen. unfold CompareAndSetPassword, bind.
  rewrite generatePasswordHash_long by assumption.
  destruct (GenerateFromPassword _ _ _ _); [|reflexivity].
  destruct (compareUserPassword _ _ _ _) as [[?|?] ? ?]; [|reflexivity].
  destruct (setPasswordHash _ _ _ _); reflexivity.
Qed.

(** A plaintext below the minimum length stops both operations at once. *)
Lemma short_password_outcome `{Imports}
    (s : Service) (userID : ID) (old password : string) (w : World) :
  (String.length password < MinPasswordLength)%nat ->
  SetPassword s userID password w = mkOutcome (Fail (Platform EShortPassword)) w []
  /\ CompareAndSetPassword s userID old password w
     = mkOutcome (Fail (Platform EShortPassword)) w [].
Proof.
  intros Hlen. unfold SetPassword, CompareAndSetPassword, bind.
  rewrite generatePasswordHash_short by assumption. split; reflexivity.
Qed.

(* ===================================================================== *)
(** ** Short passwords *)
(* ===================================================================== *)

(** C4.  For every plaintext shorter than [MinPasswordLength] (8),
    [SetPassword], and [CompareAndSetPassword] on its new-password argument,
    return [EShortPassword]; the store they leave is the store they found,
    and they made no call on the store (their trace is empty). *)
Theorem short_password_rejected_without_mutation `{Imports}
    (s : Service) (userID : ID) (old password : string) (w : World) :
  (String.length password < MinPasswordLength)%nat ->
  (res (SetPassword s userID password w) = Fail (Platform EShortPassword)
   /\ store (final (SetPassword s userID password w)) = store w
   /\ trace (SetPassword s userID password w) = [])
  /\ (res (CompareAndSetPassword s userID old password w) = Fail (Platform EShortPassword)
      /\ store (final (CompareAndSetPassword s userID old password w)) = store w
      /\ trace (CompareAndSetPassword s userID old password w) = []).
Proof.
  intros Hlen.
  unfold SetPassword, CompareAndSetPassword, bind.
  rewrite generatePasswordHash_short by assumption.
  cbn. auto.
Qed.

Lemma short_password_rejected_without_mutation_witness :
  (res (SetPassword (H := Sample.imports) Sample.svc 1%N "short" Sample.w1)
   = Fail (Platform EShortPassword)
   /\ store (final (SetPassword (H := Sample.imports) Sample.svc 1%N "short" Sample.w1))
      = store Sample.w1
   /\ trace (SetPassword (H := Sample.imports) Sample.svc 1%N "short" Sample.w1) = [])
  /\ (res (CompareAndSetPassword (H := Sample.imports) Sample.svc 1%N
             "correcthorsebattery" "short" Sample.w1)
      = Fail (Platform EShortPassword)
      /\ store (final (CompareAndSetPassword (H := Sample.imports) Sample.svc 1%N
                         "correcthorsebattery" "short" Sample.w1))
         = store Sample.w1
      /\ trace (CompareAndSetPassword (H := Sample.imports) Sample.svc 1%N
                  "correcthorsebattery" "short" Sample.w1) = []).
Proof.
  apply (short_password_rejected_without_mutation (H := Sample.imports)
           Sample.svc 1%N "correcthorsebattery" "short" Sample.w1).
  vm_compute. lia.
Defined.

(** C10.  [CompareAndSetPassword] validates and hashes the new plaintext
    before anything else: when the new plaintext is shorter than 8 it returns
    [EShortPassword] having made no call at all (no transaction, no user
    lookup, no read of the stored digest, no comparison of the old password),
    whatever the old password and whether or not the user exists; when the new
    plaintext is long enough, the first call it makes is the generation of
    the new digest, so every check of the old password comes after it. *)
Theorem CompareAndSetPassword_checks_new_password_first `{Imports}
    (s : Service) (userID : ID) (old new : string) (w : World) :
  ((String.length new < MinPasswordLength)%nat ->
     CompareAndSetPassword s userID old new w
     = mkOutcome (Fail (Platform EShortPassword)) w [])
  /\ ((MinPasswordLength <= String.length new)%nat ->
      exists t,
        trace (CompareAndSetPassword s userID old new w)
        = EvGenerate new DefaultCost :: t).
Proof.
  split; intros Hlen.
  - unfold CompareAndSetPassword, bind.
    rewrite generatePasswordHash_short by assumption. reflexivity.
  - rewrite CompareAndSetPassword_long by assumption.
    destruct (GenerateFromPassword _ _ _ _); [|cbn; eauto].
    destruct (compareUserPassword _ _ _ _) as [[?|?] w1 t1]; [|cbn; eauto].
    destruct (setPasswordHash _ _ _ _) as [r w2 t2]. cbn. eauto.
Qed.

(** A user that does not exist, a wrong old password and a short new one:
    nothing is looked up, read or compared. *)
Lemma CompareAndSetPassword_checks_new_password_first_witness :
  users (store Sample.w1) !! 3%N = None
  /\ CompareAndSetPassword (H := Sample.imports) Sample.svc 3%N "wrongpassword" "short"
       Sample.w1
     = mkOutcome (Fail (Platform EShortPassword)) Sample.w1 [].
Proof.
  split; [reflexivity|].
  apply (CompareAndSetPassword_checks_new_password_first (H := Sample.imports)).
  vm_compute. lia.
Defined.

(* ===================================================================== *)
(** ** The cost of a digest *)
(* ===================================================================== *)

(** C8.  [Bcrypt.GenerateFromPassword] hands the primitive a cost [c] that
    is the default cost when the cost asked for is strictly below the
    primitive's minimum, and the cost asked for otherwise.  So a too-low
    cost gives exactly what asking for the default cost gives (no error of
    its own), and, the default being at least the minimum, the primitive
    never sees a cost below the minimum. *)
Theorem Bcrypt_GenerateFromPassword_cost `{Imports}
    (password : string) (cost : Z) (draw : nat) :
  (bcrypt_MinCost <= bcrypt_DefaultCost)%Z ->
  exists c : Z,
    Bcrypt_GenerateFromPassword password cost draw
    = bcrypt_GenerateFromPassword password c draw
    /\ (bcrypt_MinCost <= c)%Z
    /\ ((cost < bcrypt_MinCost)%Z ->
        c = DefaultCost
        /\ Bcrypt_GenerateFromPassword password cost draw
           = Bcrypt_GenerateFromPassword password DefaultCost draw)
    /\ ((bcrypt_MinCost <= cost)%Z -> c = cost).
Proof.
  intros Hdefault. unfold Bcrypt_GenerateFromPassword, DefaultCost.
  destruct (Z.ltb_spec cost bcrypt_MinCost) as [Hlow|Hhigh].
  - exists bcrypt_DefaultCost. repeat split; try lia.
    destruct (Z.ltb_spec bcrypt_DefaultCost bcrypt_MinCost); [lia|reflexivity].
  - exists cost. repeat split; try lia.
Qed.

Lemma Bcrypt_GenerateFromPassword_cost_witness :
  exists c : Z,
    Bcrypt_GenerateFromPassword (H := Sample.imports) "correcthorsebattery" 2 0
    = Sample.generate "correcthorsebattery" c 0
    /\ (4 <= c)%Z
    /\ ((2 < 4)%Z ->
        c = 10%Z
        /\ Bcrypt_GenerateFromPassword (H := Sample.imports) "correcthorsebattery" 2 0
           = Bcrypt_GenerateFromPassword (H := Sample.imports) "correcthorsebattery" 10 0)
    /\ ((4 <= 2)%Z -> c = 2%Z).
Proof.
  apply (Bcrypt_GenerateFromPassword_cost (H := Sample.imports)
           "correcthorsebattery" 2 0).
  simpl. lia.
Defined.

(* ===================================================================== *)
(** ** The errors of a comparison *)
(* ===================================================================== *)

(** C1, as the spec states it, fails: a user that does not resolve makes
    [ComparePassword] return [EIncorrectUser], and an identifier that does not
    encode makes it return [CorruptUserIDError]; neither is
    [EIncorrectPassword]. *)
Lemma ComparePassword_causes_distinguishable :
  (users (store Sample.w1) !! 3%N = None
   /\ res (ComparePassword (H := Sample.imports) Sample.svc 3%N "correcthorsebattery"
             Sample.w1)
      = Fail (Platform EIncorrectUser)
   /\ Platform EIncorrectUser <> Platform EIncorrectPassword)
  /\ (ID_Encode (Imports := Sample.imports) 0%N = Fail "invalid ID"
      /\ res (ComparePassword (H := Sample.imports) Sample.svc 0%N "correcthorsebattery"
                Sample.w1)
         = Fail (Platform (CorruptUserIDError "0" "invalid ID"))
      /\ Platform (CorruptUserIDError "0" "invalid ID") <> Platform EIncorrectPassword).
Proof.
  split; (split; [|split]); try (vm_compute; reflexivity); discriminate.
Qed.

(** C1, amended.  Once the read-only transaction is open, [ComparePassword]
    returns [EIncorrectPassword] when there is no credential record, when the
    read of the digest fails, and when the digest does not verify; it returns
    other errors for the causes that come before the read: [CorruptUserIDError]
    when the identifier does not encode, [EIncorrectUser] when the user does
    not resolve, [UnavailablePasswordServiceError] when the bucket does not
    open. *)
Theorem ComparePassword_failure_causes `{Imports}
    (s : Service) (userID : ID) (password : string) (w : World) :
  faults w BeginView = None ->
  let r := res (ComparePassword s userID password w) in
  (forall err, ID_Encode userID = Fail err ->
     r = Fail (Platform (CorruptUserIDError (ID_String userID) err)))
  /\ (forall key, ID_Encode userID = Ok key ->
      users (store w) !! userID = None ->
      r = Fail (Platform EIncorrectUser))
  /\ (forall key user err, ID_Encode userID = Ok key ->
      users (store w) !! userID = Some user ->
      faults w OpenBucket = Some err ->
      r = Fail (Platform (UnavailablePasswordServiceError err)))
  /\ (forall key user, ID_Encode userID = Ok key ->
      users (store w) !! userID = Some user ->
      faults w OpenBucket = None ->
      stored (store w) userpasswordBucket key = None \/ faults w ReadKey <> None ->
      r = Fail (Platform EIncorrectPassword))
  /\ (forall key user digest err, ID_Encode userID = Ok key ->
      users (store w) !! userID = Some user ->
      faults w OpenBucket = None ->
      faults w ReadKey = None ->
      stored (store w) userpasswordBucket key = Some digest ->
      CompareHashAndPassword (hasherOf s) digest password = Fail err ->
      r = Fail (Platform EIncorrectPassword)).
Proof.
  intros Hview r. subst r. destruct w as [st fl rd]. cbn in Hview.
  unfold ComparePassword.
  repeat split.
  - intros err Henc. unfold_service; unfold_calls; cbn.
    rewrite Hview, Henc. reflexivity.
  - intros key Henc Huser. unfold_service; unfold_calls; cbn in *.
    rewrite Hview, Henc; cbn. rewrite Huser. reflexivity.
  - intros key user err Henc Huser Hopen. unfold_service; unfold_calls; cbn in *.
    rewrite Hview, Henc; cbn. rewrite Huser; cbn. rewrite Hopen. reflexivity.
  - intros key user Henc Huser Hopen Hread. unfold_service; unfold_calls; cbn in *.
    rewrite Hview, Henc; cbn. rewrite Huser; cbn. rewrite Hopen; cbn.
    destruct (fl ReadKey) as [err|]; [reflexivity|].
    destruct Hread as [Hnone|Hfault]; [|congruence].
    rewrite Hnone. reflexivity.
  - intros key user digest err Henc Huser Hopen Hread Hget Hcmp.
    rewrite (compareUserPassword_run s userID password _ key user digest)
      by assumption.
    cbn. rewrite Hcmp. reflexivity.
Qed.

Lemma ComparePassword_failure_causes_witness :
  res (ComparePassword (H := Sample.imports) Sample.svc 2%N "correcthorsebattery" Sample.w1)
  = Fail (Platform EIncorrectPassword)
  /\ res (ComparePassword (H := Sample.imports) Sample.svc 1%N "correcthorsebattery"
            Sample.w1_unreadable)
     = Fail (Platform EIncorrectPassword)
  /\ res (ComparePassword (H := Sample.imports) Sample.svc 1%N "wrongpassword" Sample.w1)
     = Fail (Platform EIncorrectPassword)
  /\ res (ComparePassword (H := Sample.imports) Sample.svc 3%N "correcthorsebattery"
            Sample.w1)
     = Fail (Platform EIncorrectUser).
Proof.
  split; [|split; [|split]].
  - destruct (ComparePassword_failure_causes (H := Sample.imports) Sample.svc 2%N
                "correcthorsebattery" Sample.w1 eq_refl) as (_ & _ & _ & Hread & _).
    apply (Hread "2" "bob"); try reflexivity.
    left. vm_compute. reflexivity.
  - destruct (ComparePassword_failure_causes (H := Sample.imports) Sample.svc 1%N
                "correcthorsebattery" Sample.w1_unreadable eq_refl)
      as (_ & _ & _ & Hread & _).
    apply (Hread "1" "alice"); try reflexivity.
    right. vm_compute. discriminate.
  - destruct (ComparePassword_failure_causes (H := Sample.imports) Sample.svc 1%N
                "wrongpassword" Sample.w1 eq_refl) as (_ & _ & _ & _ & Hverify).
    apply (Hverify "1" "alice" (String (ascii_of_nat 0) "correcthorsebattery")
             "hashedPassword is not the hash of the given password");
      vm_compute; reflexivity.
  - destruct (ComparePassword_failure_causes (H := Sample.imports) Sample.svc 3%N
                "correcthorsebattery" Sample.w1 eq_refl) as (_ & Huser & _).
    apply (Huser "3"); vm_compute; reflexivity.
Defined.

(* ===================================================================== *)
(** ** When a digest is written *)
(* ===================================================================== *)

Lemma setPasswordHash_guarded `{Imports} s userID hash w :
  let o := setPasswordHash s userID hash w in
  puts (trace o) \/ store (final o) <> store w ->
  exists user key closing,
    users (store w) !! userID = Some user
    /\ ID_Encode userID = Ok key
    /\ trace o = [EvUpdate; EvFindUser userID true; EvBucket userpasswordBucket;
                  EvPut userpasswordBucket key hash; closing].
Proof.
  destruct w as [st fl rd]. unfold puts. crunch;
    intros [(b & k & v & Hin)|Hne];
    try (exfalso; apply Hne; reflexivity);
    try (cbn in Hin; intuition discriminate);
    eauto 6.
Qed.

Lemma compareUserPassword_no_put `{Imports} s userID password w :
  ~ puts (trace (compareUserPassword s userID password w)).
Proof.
  destruct w as [st fl rd]. unfold puts.
  crunch; intros (b & k & v & Hin); cbn in Hin; intuition discriminate.
Qed.

(** C2.  In [SetPassword] and in [CompareAndSetPassword], when the operation
    calls [Bucket.Put] or leaves a store other than the one it found, then the
    plaintext has length at least 8, the user resolved within the operation's
    update transaction before the put, and what was put is the digest
    generated from that plaintext, under the user's encoded identifier in the
    credential bucket. *)
Theorem digest_written_only_after_checks `{Imports}
    (s : Service) (userID : ID) (old password : string) (w : World) :
  (puts (trace (SetPassword s userID password w))
   \/ store (final (SetPassword s userID password w)) <> store w ->
   guarded_put s userID password w (trace (SetPassword s userID password w)))
  /\ (puts (trace (CompareAndSetPassword s userID old password w))
      \/ store (final (CompareAndSetPassword s userID old password w)) <> store w ->
      guarded_put s userID password w
        (trace (CompareAndSetPassword s userID old password w))).
Proof.
  destruct (Nat.lt_ge_cases (String.length password) MinPasswordLength) as [Hshort|Hlong].
  { destruct (short_password_outcome s userID old password w Hshort)
      as (Hset & Hcas).
    rewrite Hset, Hcas. cbn.
    split; (intros [(b & k & v & [])|Hne]; exfalso; apply Hne; reflexivity). }
  split.
  - rewrite SetPassword_long by assumption.
    destruct (GenerateFromPassword _ _ _ _) as [digest|err] eqn:Hgen.
    + pose proof (setPasswordHash_guarded s userID digest (after_draw w)) as Hg.
      destruct (setPasswordHash s userID digest (after_draw w)) as [r w2 t2].
      cbn in *. intros Hw.
      destruct Hg as (user & key & closing & Huser & Henc & Ht).
      { destruct Hw as [(b & k & v & [Hin|Hin])|Hne];
          [discriminate | left; exists b, k, v; exact Hin | right; exact Hne]. }
      split; [assumption|].
      exists user, key, digest, [EvGenerate password DefaultCost], closing.
      subst t2. repeat split; try assumption.
      intros (b & k & v & [Hin|[]]). discriminate.
    + cbn. intros [(b & k & v & [Hin|[]])|Hne];
        [discriminate | exfalso; apply Hne; reflexivity].
  - rewrite CompareAndSetPassword_long by assumption.
    destruct (GenerateFromPassword _ _ _ _) as [digest|err] eqn:Hgen.
    + pose proof (compareUserPassword_final s userID old (after_draw w)) as Hfin.
      pose proof (compareUserPassword_no_put s userID old (after_draw w)) as Hnoput.
      destruct (compareUserPassword s userID old (after_draw w)) as [[[]|e] w1 t1];
        cbn in Hfin, Hnoput; subst w1.
      * pose proof (setPasswordHash_guarded s userID digest (after_draw w)) as Hg.
        destruct (setPasswordHash s userID digest (after_draw w)) as [r w2 t2].
        cbn in *. intros Hw.
        destruct Hg as (user & key & closing & Huser & Henc & Ht).
        { destruct Hw as [(b & k & v & [Hin|Hin])|Hne];
            [discriminate | | right; exact Hne].
          apply in_app_iff in Hin. destruct Hin as [Hin|Hin].
          - exfalso. apply Hnoput. exists b, k, v. exact Hin.
          - left. exists b, k, v. exact Hin. }
        split; [assumption|].
        exists user, key, digest, (EvGenerate password DefaultCost :: t1), closing.
        subst t2. repeat split; try assumption.
        intros (b & k & v & [Hin|Hin]); [discriminate|].
        apply Hnoput. exists b, k, v. exact Hin.
      * cbn. intros [(b & k & v & [Hin|Hin])|Hne];
          [discriminate | | exfalso; apply Hne; reflexivity].
        exfalso. apply Hnoput. exists b, k, v. exact Hin.
    + cbn. intros [(b & k & v & [Hin|[]])|Hne];
        [discriminate | exfalso; apply Hne; reflexivity].
Qed.

Lemma digest_written_only_after_checks_witness :
  guarded_put (H := Sample.imports) Sample.svc 1%N "correcthorsebattery" Sample.w0
    (trace (SetPassword (H := Sample.imports) Sample.svc 1%N "correcthorsebattery"
              Sample.w0)).
Proof.
  apply (proj1 (digest_written_only_after_checks (H := Sample.imports)
                  Sample.svc 1%N "" "correcthorsebattery" Sample.w0)).
  left. exists userpasswordBucket, "1", (String (ascii_of_nat 0) "correcthorsebattery").
  vm_compute. auto 10.
Defined.

(* ===================================================================== *)
(** ** The order of hashing and resolving in SetPassword *)
(* ===================================================================== *)

(** C7.  In [SetPassword], whenever the user is looked up, the digest was
    generated first: the generation is the first call of the trace.  When the
    lookup fails, [SetPassword] returns [EIncorrectUser].  For a plaintext of
    the minimum length the digest is generated whether or not the user
    exists; in particular, for a user that does not exist (the digest
    generated, the transaction begun, the identifier encoded) the run is:
    generate, begin, look up and fail, roll back. *)
Theorem SetPassword_hashes_before_resolving `{Imports}
    (s : Service) (userID : ID) (password : string) (w : World) :
  (forall found, In (EvFindUser userID found) (trace (SetPassword s userID password w)) ->
     exists t, trace (SetPassword s userID password w)
               = EvGenerate password DefaultCost :: t)
  /\ (In (EvFindUser userID false) (trace (SetPassword s userID password w)) ->
      res (SetPassword s userID password w) = Fail (Platform EIncorrectUser))
  /\ ((MinPasswordLength <= String.length password)%nat ->
      exists t, trace (SetPassword s userID password w)
                = EvGenerate password DefaultCost :: t)
  /\ ((MinPasswordLength <= String.length password)%nat ->
      forall digest key,
        GenerateFromPassword (hasherOf s) password DefaultCost (rand w) = Ok digest ->
        faults w BeginUpdate = None ->
        ID_Encode userID = Ok key ->
        users (store w) !! userID = None ->
        SetPassword s userID password w
        = mkOutcome (Fail (Platform EIncorrectUser)) (after_draw w)
            [EvGenerate password DefaultCost; EvUpdate; EvFindUser userID false;
             EvRollback]).
Proof.
  destruct (Nat.lt_ge_cases (String.length password) MinPasswordLength) as [Hshort|Hlong].
  { destruct (short_password_outcome s userID "" password w Hshort)
      as (Hset & _).
    rewrite Hset. cbn. unfold MinPasswordLength in *.
    repeat split; try (intros; exfalso; lia); intros; contradiction. }
  rewrite SetPassword_long by assumption.
  destruct (GenerateFromPassword _ _ _ _) as [digest|err] eqn:Hgen.
  - destruct w as [st fl rd]. unfold after_draw. cbn.
    repeat split.
    + intros found Hin. destruct (setPasswordHash _ _ _ _). cbn. eauto.
    + crunch; cbn; intros Hin; try reflexivity;
        repeat (destruct Hin as [Hin|Hin]; try discriminate); try contradiction.
    + intros _. destruct (setPasswordHash _ _ _ _). cbn. eauto.
    + intros _ digest' key Hd Hbegin Henc Huser. unfold_service; unfold_calls; cbn.
      rewrite Hbegin, Henc; cbn. rewrite Huser; cbn. reflexivity.
  - cbn. repeat split; eauto.
    + intros [Hin|[]]. discriminate.
    + intros _ digest' key Hd. discriminate.
Qed.

Lemma SetPassword_hashes_before_resolving_witness :
  SetPassword (H := Sample.imports) Sample.svc 3%N "correcthorsebattery" Sample.w0
  = mkOutcome (Fail (Platform EIncorrectUser)) (after_draw Sample.w0)
      [EvGenerate "correcthorsebattery" 10; EvUpdate; EvFindUser 3%N false; EvRollback].
Proof.
  destruct (SetPassword_hashes_before_resolving (H := Sample.imports)
              Sample.svc 3%N "correcthorsebattery" Sample.w0) as (_ & _ & _ & Hrun).
  apply (Hrun ltac:(vm_compute; lia) (String (ascii_of_nat 0) "correcthorsebattery") "3");
    vm_compute; reflexivity.
Defined.

(* ===================================================================== *)
(** ** Comparing never writes *)
(* ===================================================================== *)

(** C9.  [ComparePassword] leaves the world as it found it, the first call
    it makes opens a read-only transaction ([View]), and no call it makes is a
    put or belongs to an update transaction.  So when it fails with a
    password, each of any number of repeated calls fails in the same way, and
    the world after them is the world before them. *)
Theorem ComparePassword_never_mutates `{Imports}
    (s : Service) (userID : ID) (password : string) (w : World) :
  (final (ComparePassword s userID password w) = w
   /\ (exists t, trace (ComparePassword s userID password w) = EvView :: t)
   /\ Forall (fun e => mutating e = false) (trace (ComparePassword s userID password w)))
  /\ (forall e n,
        res (ComparePassword s userID password w) = Fail e ->
        ComparePassword_times n s userID password w = (repeat (Fail e) n, w)).
Proof.
  split; [split; [|split]|].
  - apply compareUserPassword_final.
  - unfold ComparePassword. destruct w as [st fl rd]. crunch; eauto.
  - unfold ComparePassword. destruct w as [st fl rd].
    crunch; repeat constructor.
  - intros e n Hfail. induction n as [|n IH]; [reflexivity|].
    cbn [ComparePassword_times repeat].
    assert (Hfin : final (ComparePassword s userID password w) = w)
      by apply compareUserPassword_final.
    rewrite Hfin, IH, Hfail. reflexivity.
Qed.

Lemma ComparePassword_never_mutates_witness :
  ComparePassword_times (H := Sample.imports) 3 Sample.svc 1%N "wrongpassword" Sample.w1
  = ([Fail (Platform EIncorrectPassword); Fail (Platform EIncorrectPassword);
      Fail (Platform EIncorrectPassword)], Sample.w1).
Proof.
  apply (proj2 (ComparePassword_never_mutates (H := Sample.imports)
                  Sample.svc 1%N "wrongpassword" Sample.w1)
           (Platform EIncorrectPassword) 3).
  vm_compute. reflexivity.
Defined.

(* ===================================================================== *)
(** ** Setting, then comparing *)
(* ===================================================================== *)

(** After a digest was written for a user, a comparison in a readable world
    is decided by the hashing strategy on that digest. *)
Lemma compare_after_setPasswordHash `{Imports} s userID hash password w :
  res (setPasswordHash s userID hash w) = Ok tt ->
  readable w ->
  res (compareUserPassword s userID password (final (setPasswordHash s userID hash w)))
  = match CompareHashAndPassword (hasherOf s) hash password with
    | Ok _ => Ok tt
    | Fail _ => Fail (Platform EIncorrectPassword)
    end.
Proof.
  intros Hok [Hview Hread].
  destruct (setPasswordHash_Ok_inv s userID hash w Hok)
    as (key & user & Henc & Huser & Hopen & Hfinal).
  rewrite Hfinal.
  rewrite (compareUserPassword_run s userID password _ key user hash);
    try assumption; try reflexivity.
  apply stored_store_put.
Qed.



(* ===================================================================== *)
(** ** Compare and set *)
(* ===================================================================== *)

(** C5.  When the old password fails the check (a [ComparePassword] with it
    fails), [CompareAndSetPassword] returns an error: that of the check, or,
    before the check is made, [EShortPassword] or [InternalPasswordHashError]
    for the new password.  It makes no put, the store it leaves is the store
    it found, and every later [ComparePassword] gives what it gave before
    (the original password still succeeds). *)
Theorem CompareAndSetPassword_wrong_old_password `{Imports}
    (s : Service) (userID : ID) (old new : string) (w : World) (e : error) :
  res (ComparePassword s userID old w) = Fail e ->
  (res (CompareAndSetPassword s userID old new w) = Fail e
   \/ res (CompareAndSetPassword s userID old new w) = Fail (Platform EShortPassword)
   \/ exists err, res (CompareAndSetPassword s userID old new w)
                  = Fail (Platform (InternalPasswordHashError err)))
  /\ ~ puts (trace (CompareAndSetPassword s userID old new w))
  /\ store (final (CompareAndSetPassword s userID old new w)) = store w
  /\ forall p,
       res (ComparePassword s userID p (final (CompareAndSetPassword s userID old new w)))
       = res (ComparePassword s userID p w).
Proof.
  unfold ComparePassword. intros Hfail.
  destruct (Nat.lt_ge_cases (String.length new) MinPasswordLength) as [Hshort|Hlong].
  { destruct (short_password_outcome s userID old new w Hshort)
      as (_ & Hcas).
    rewrite Hcas. cbn. repeat split; auto.
    intros (b & k & v & []). }
  rewrite CompareAndSetPassword_long by assumption.
  assert (Hafter : forall p,
    res (compareUserPassword s userID p (after_draw w))
    = res (compareUserPassword s userID p w))
    by (intros p; apply compareUserPassword_rand).
  destruct (GenerateFromPassword _ _ _ _) as [digest|err].
  - pose proof (compareUserPassword_final s userID old (after_draw w)) as Hfin.
    pose proof (compareUserPassword_no_put s userID old (after_draw w)) as Hnoput.
    pose proof (Hafter old) as Hres. rewrite Hfail in Hres.
    destruct (compareUserPassword s userID old (after_draw w)) as [r w1 t1].
    cbn in Hfin, Hnoput, Hres. subst r w1. cbn.
    repeat split; auto.
    intros (b & k & v & [Hin|Hin]); [discriminate|].
    apply Hnoput. exists b, k, v. exact Hin.
  - cbn. repeat split; eauto.
    intros (b & k & v & [Hin|[]]). discriminate.
Qed.

Lemma CompareAndSetPassword_wrong_old_password_witness :
  res (CompareAndSetPassword (H := Sample.imports) Sample.svc 1%N
         "wrongpassword" "newpassword123" Sample.w1)
  = Fail (Platform EIncorrectPassword)
  /\ store (final (CompareAndSetPassword (H := Sample.imports) Sample.svc 1%N
                     "wrongpassword" "newpassword123" Sample.w1))
     = store Sample.w1
  /\ res (ComparePassword (H := Sample.imports) Sample.svc 1%N "correcthorsebattery"
            (final (CompareAndSetPassword (H := Sample.imports) Sample.svc 1%N
                      "wrongpassword" "newpassword123" Sample.w1)))
     = Ok tt.
Proof.
  destruct (CompareAndSetPassword_wrong_old_password (H := Sample.imports)
              Sample.svc 1%N "wrongpassword" "newpassword123" Sample.w1
              (Platform EIncorrectPassword))
    as (Hres & _ & Hstore & Hlater).
  - vm_compute. reflexivity.
  - split; [vm_compute; reflexivity|].
    split; [exact Hstore|].
    rewrite Hlater. vm_compute. reflexivity.
Defined.

(** C6, as the spec states it, fails: that [new] is distinct from [old] is
    not enough.  With a primitive that reads the first 72 bytes of a
    password, as bcrypt does, and two distinct passwords of 73 bytes with the
    same first 72, [CompareAndSetPassword(u, old, new)] succeeds for an
    existing user whose stored password is [old], and [ComparePassword(u, old)]
    still succeeds afterwards. *)
Lemma CompareAndSetPassword_old_still_accepted :
  Sample.old73 <> Sample.new73
  /\ (MinPasswordLength <= String.length Sample.new73)%nat
  /\ users (store Sample.w1_72) !! 1%N = Some "alice"
  /\ res (ComparePassword (H := Sample.imports72) Sample.svc 1%N Sample.old73
            Sample.w1_72) = Ok tt
  /\ res (CompareAndSetPassword (H := Sample.imports72) Sample.svc 1%N
            Sample.old73 Sample.new73 Sample.w1_72) = Ok tt
  /\ res (ComparePassword (H := Sample.imports72) Sample.svc 1%N Sample.old73
            (final (CompareAndSetPassword (H := Sample.imports72) Sample.svc 1%N
                      Sample.old73 Sample.new73 Sample.w1_72)))
     = Ok tt
  /\ res (ComparePassword (H := Sample.imports72) Sample.svc 1%N Sample.old73
            (final (CompareAndSetPassword (H := Sample.imports72) Sample.svc 1%N
                      Sample.old73 Sample.new73 Sample.w1_72)))
     <> Fail (Platform EIncorrectPassword).
Proof.
  split; [vm_compute; discriminate|].
  split; [vm_compute; lia|].
  split; [reflexivity|].
  split; [vm_compute; reflexivity|].
  split; [vm_compute; reflexivity|].
  split; [vm_compute; reflexivity|].
  vm_compute. discriminate.
Qed.

(** C6, amended.  After a successful [CompareAndSetPassword(u, old, new)] (so
    [u] exists, [old] was accepted against the stored digest and [new] has
    length at least 8), when the hashing strategy tells [new] from [old],
    that is, accepts [new] and rejects [old] against the digest it generated
    for [new]: [ComparePassword(u, new)] succeeds and [ComparePassword(u, old)]
    fails with [EIncorrectPassword]. *)
Theorem CompareAndSetPassword_replaces_password `{Imports}
    (s : Service) (userID : ID) (old new : string) (w : World) :
  res (CompareAndSetPassword s userID old new w) = Ok tt ->
  (forall digest,
     GenerateFromPassword (hasherOf s) new DefaultCost (rand w) = Ok digest ->
     CompareHashAndPassword (hasherOf s) digest new = Ok tt
     /\ CompareHashAndPassword (hasherOf s) digest old <> Ok tt) ->
  res (ComparePassword s userID new (final (CompareAndSetPassword s userID old new w)))
  = Ok tt
  /\ res (ComparePassword s userID old (final (CompareAndSetPassword s userID old new w)))
     = Fail (Platform EIncorrectPassword).
Proof.
  destruct (Nat.lt_ge_cases (String.length new) MinPasswordLength) as [Hshort|Hlong].
  { destruct (short_password_outcome s userID old new w Hshort)
      as (_ & Hcas).
    rewrite Hcas. cbn. discriminate. }
  rewrite CompareAndSetPassword_long by assumption.
  destruct (GenerateFromPassword _ _ _ _) as [digest|err]; [|cbn; discriminate].
  pose proof (compareUserPassword_final s userID old (after_draw w)) as Hfin.
  pose proof (compareUserPassword_Ok_inv s userID old (after_draw w)) as Hold.
  destruct (compareUserPassword s userID old (after_draw w)) as [[[]|e] w1 t1];
    [|cbn; discriminate].
  cbn in Hfin, Hold. subst w1.
  destruct (Hold eq_refl) as (key & user & stored_digest & Hview & _ & _ & _ & Hread & _).
  pose proof (fun q => compare_after_setPasswordHash s userID digest q (after_draw w))
    as Hcmp.
  destruct (setPasswordHash s userID digest (after_draw w)) as [r w2 t2].
  cbn in *. intros Hok Hhasher.
  destruct (Hhasher digest eq_refl) as [Haccept Hreject].
  unfold ComparePassword.
  rewrite !Hcmp by (try assumption; split; assumption).
  rewrite Haccept. split; [reflexivity|].
  destruct (CompareHashAndPassword (hasherOf s) digest old) as [[]|]; congruence.
Qed.

Lemma CompareAndSetPassword_replaces_password_witness :
  res (ComparePassword (H := Sample.imports) Sample.svc 1%N "newpassword123"
         (final (CompareAndSetPassword (H := Sample.imports) Sample.svc 1%N
                   "correcthorsebattery" "newpassword123" Sample.w1)))
  = Ok tt
  /\ res (ComparePassword (H := Sample.imports) Sample.svc 1%N "correcthorsebattery"
            (final (CompareAndSetPassword (H := Sample.imports) Sample.svc 1%N
                      "correcthorsebattery" "newpassword123" Sample.w1)))
     = Fail (Platform EIncorrectPassword).
Proof.
  apply (CompareAndSetPassword_replaces_password (H := Sample.imports)
           Sample.svc 1%N "correcthorsebattery" "newpassword123" Sample.w1).
  - vm_compute. reflexivity.
  - intros digest Hgen. vm_compute in Hgen. injection Hgen as <-.
    split; vm_compute; [reflexivity|discriminate].
Defined.

(* ===================================================================== *)
(** ** More on the store *)
(* ===================================================================== *)

Lemma stored_store_put_ne st name key value name' key' :
  (name, key) <> (name', key') ->
  stored (store_put st name key value) name' key' = stored st name' key'.
Proof.
  intros Hne. unfold stored, store_put; cbn.
  destruct (decide (name = name')) as [<-|Hname].
  - rewrite lookup_insert_eq; cbn.
    rewrite lookup_insert_ne by congruence.
    destruct (buckets st !! name); reflexivity.
  - rewrite lookup_insert_ne by assumption. reflexivity.
Qed.

Lemma store_put_twice st name key value value' :
  store_put (store_put st name key value) name key value'
  = store_put st name key value'.
Proof.
  unfold store_put; cbn. f_equal.
  rewrite lookup_insert_eq; cbn.
  rewrite !insert_insert_eq. reflexivity.
Qed.

(** The run of a write of a digest that meets no obstacle. *)
Lemma setPasswordHash_run `{Imports} s userID hash w key user :
  faults w BeginUpdate = None ->
  ID_Encode userID = Ok key ->
  users (store w) !! userID = Some user ->
  faults w OpenBucket = None ->
  faults w WriteKey = None ->
  faults w CommitUpdate = None ->
  setPasswordHash s userID hash w
  = mkOutcome (Ok tt)
      (with_store w (store_put (store w) userpasswordBucket key hash))
      [EvUpdate; EvFindUser userID true; EvBucket userpasswordBucket;
       EvPut userpasswordBucket key hash; EvCommit].
Proof.
  intros Hbegin Henc Huser Hopen Hwrite Hcommit. destruct w.
  unfold_service; unfold_calls; cbn in *.
  rewrite Hbegin, Henc; cbn. rewrite Huser; cbn. rewrite Hopen; cbn.
  rewrite Hwrite; cbn. rewrite Hcommit. reflexivity.
Qed.

(** A write of a digest that succeeds met no obstacle. *)
Lemma setPasswordHash_Ok_faults `{Imports} s userID hash w :
  res (setPasswordHash s userID hash w) = Ok tt ->
  faults w BeginUpdate = None /\ faults w OpenBucket = None
  /\ faults w WriteKey = None /\ faults w CommitUpdate = None.
Proof.
  intros Hok. destruct w. crunch. auto.
Qed.

(** A comparison depends on the world through the faults, the user's record
    and the digest stored for the user only. *)
Lemma compareUserPassword_ext `{Imports} s userID password w w' :
  faults w = faults w' ->
  users (store w) !! userID = users (store w') !! userID ->
  (forall key, ID_Encode userID = Ok key ->
     stored (store w) userpasswordBucket key = stored (store w') userpasswordBucket key) ->
  res (compareUserPassword s userID password w)
  = res (compareUserPassword s userID password w').
Proof.
  intros Hfaults Husers Hstored.
  destruct w as [st fl rd], w' as [st' fl' rd']. cbn in *. subst fl'.
  unfold_service; unfold_calls; cbn.
  destruct (fl BeginView); [reflexivity|].
  destruct (ID_Encode userID) as [key|err]; cbn; [|reflexivity].
  rewrite <- Husers.
  destruct (users st !! userID); cbn; [|reflexivity].
  destruct (fl OpenBucket); cbn; [reflexivity|].
  destruct (fl ReadKey); cbn; [reflexivity|].
  rewrite <- (Hstored key eq_refl).
  destruct (stored st userpasswordBucket key); cbn; [|reflexivity].
  destruct (CompareHashAndPassword _ _ _); reflexivity.
Qed.

(** A comparison that fails, and why. *)
Lemma compareUserPassword_Fail_inv `{Imports} s userID password w e :
  res (compareUserPassword s userID password w) = Fail e ->
  (exists err, faults w BeginView = Some err /\ e = Foreign err)
  \/ (exists err, ID_Encode userID = Fail err
                  /\ e = Platform (CorruptUserIDError (ID_String userID) err))
  \/ (users (store w) !! userID = None /\ e = Platform EIncorrectUser)
  \/ (exists err, faults w OpenBucket = Some err
                  /\ e = Platform (UnavailablePasswordServiceError err))
  \/ e = Platform EIncorrectPassword.
Proof.
  intros Hfail. destruct w as [st fl rd]. crunch; eauto 8.
Qed.

(* ===================================================================== *)
(** ** SetPassword: when it succeeds, what it changes, how it fails *)
(* ===================================================================== *)

(** X1.  [SetPassword] succeeds exactly when the password has the minimum
    length, the hashing strategy generates a digest, the identifier encodes,
    the user resolves, and the store begins the transaction, opens the
    bucket, writes and commits. *)
Theorem SetPassword_succeeds_iff `{Imports}
    (s : Service) (userID : ID) (password : string) (w : World) :
  res (SetPassword s userID password w) = Ok tt
  <-> (MinPasswordLength <= String.length password)%nat
      /\ (exists digest,
            GenerateFromPassword (hasherOf s) password DefaultCost (rand w) = Ok digest)
      /\ (exists key, ID_Encode userID = Ok key)
      /\ (exists user, users (store w) !! userID = Some user)
      /\ faults w BeginUpdate = None /\ faults w OpenBucket = None
      /\ faults w WriteKey = None /\ faults w CommitUpdate = None.
Proof.
  split.
  - destruct (Nat.lt_ge_cases (String.length password) MinPasswordLength)
      as [Hshort|Hlong].
    { destruct (short_password_outcome s userID "" password w Hshort) as (Hset & _).
      rewrite Hset. cbn. discriminate. }
    rewrite SetPassword_long by assumption.
    destruct (GenerateFromPassword _ _ _ _) as [digest|err]; [|cbn; discriminate].
    pose proof (setPasswordHash_Ok_inv s userID digest (after_draw w)) as Hinv.
    pose proof (setPasswordHash_Ok_faults s userID digest (after_draw w)) as Hfaults.
    destruct (setPasswordHash s userID digest (after_draw w)) as [r w2 t2].
    cbn in *. intros Hok.
    destruct (Hinv Hok) as (key & user & Henc & Huser & _).
    destruct (Hfaults Hok) as (? & ? & ? & ?).
    repeat split; eauto.
  - intros (Hlong & (digest & Hgen) & (key & Henc) & (user & Huser)
            & Hbegin & Hopen & Hwrite & Hcommit).
    rewrite SetPassword_long by assumption. rewrite Hgen.
    rewrite (setPasswordHash_run s userID digest (after_draw w) key user)
      by assumption.
    reflexivity.
Qed.

(** X2.  A successful [SetPassword] puts the digest generated from the
    password under the user's encoded identifier in the credential bucket,
    in place of whatever was there, and changes nothing else of the store:
    every other key of every bucket holds what it held, and the user records
    are the same. *)
Theorem SetPassword_effect `{Imports}
    (s : Service) (userID : ID) (password : string) (w : World) :
  res (SetPassword s userID password w) = Ok tt ->
  exists key digest,
    ID_Encode userID = Ok key
    /\ GenerateFromPassword (hasherOf s) password DefaultCost (rand w) = Ok digest
    /\ stored (store (final (SetPassword s userID password w))) userpasswordBucket key
       = Some digest
    /\ (forall name key', (userpasswordBucket, key) <> (name, key') ->
          stored (store (final (SetPassword s userID password w))) name key'
          = stored (store w) name key')
    /\ users (store (final (SetPassword s userID password w))) = users (store w).
Proof.
  destruct (Nat.lt_ge_cases (String.length password) MinPasswordLength)
    as [Hshort|Hlong].
  { destruct (short_password_outcome s userID "" password w Hshort) as (Hset & _).
    rewrite Hset. cbn. discriminate. }
  rewrite SetPassword_long by assumption.
  destruct (GenerateFromPassword _ _ _ _) as [digest|err]; [|cbn; discriminate].
  pose proof (setPasswordHash_Ok_inv s userID digest (after_draw w)) as Hinv.
  destruct (setPasswordHash s userID digest (after_draw w)) as [r w2 t2].
  cbn in *. intros Hok.
  destruct (Hinv Hok) as (key & user & Henc & Huser & _ & Hfinal).
  subst w2. cbn. exists key, digest.
  split; [assumption|]. split; [reflexivity|].
  split; [apply stored_store_put|].
  split; [|reflexivity].
  intros name key' Hne. apply stored_store_put_ne. assumption.
Qed.

Lemma SetPassword_effect_witness :
  exists key digest,
    ID_Encode (Imports := Sample.imports) 1%N = Ok key
    /\ GenerateFromPassword (hasherOf (H := Sample.imports) Sample.svc)
         "newpassword123" (DefaultCost (H := Sample.imports)) (rand Sample.w1)
       = Ok digest
    /\ stored (store (final (SetPassword (H := Sample.imports) Sample.svc 1%N
                               "newpassword123" Sample.w1)))
         userpasswordBucket key
       = Some digest
    /\ (forall name key', (userpasswordBucket, key) <> (name, key') ->
          stored (store (final (SetPassword (H := Sample.imports) Sample.svc 1%N
                                  "newpassword123" Sample.w1))) name key'
          = stored (store Sample.w1) name key')
    /\ users (store (final (SetPassword (H := Sample.imports) Sample.svc 1%N
                              "newpassword123" Sample.w1)))
       = users (store Sample.w1).
Proof.
  apply (SetPassword_effect (H := Sample.imports) Sample.svc 1%N "newpassword123"
           Sample.w1).
  vm_compute. reflexivity.
Defined.

(** X3.  How [SetPassword] fails, for a password of the minimum length, in
    the order the causes are met.  A hashing strategy that fails gives
    [InternalPasswordHashError] and no transaction is begun.  With a digest
    and a transaction: an identifier that does not encode gives
    [CorruptUserIDError] before any lookup; for a user that resolves, a
    bucket that does not open or a write that fails gives
    [UnavailablePasswordServiceError] with the store's error text; a commit
    that fails gives the store's error as it is.  Every one of these
    transactions is rolled back. *)
Theorem SetPassword_failure_causes `{Imports}
    (s : Service) (userID : ID) (password : string) (w : World) :
  (MinPasswordLength <= String.length password)%nat ->
  (forall err,
     GenerateFromPassword (hasherOf s) password DefaultCost (rand w) = Fail err ->
     SetPassword s userID password w
     = mkOutcome (Fail (Platform (InternalPasswordHashError err))) (after_draw w)
         [EvGenerate password DefaultCost])
  /\ (forall digest,
        GenerateFromPassword (hasherOf s) password DefaultCost (rand w) = Ok digest ->
        faults w BeginUpdate = None ->
        (forall err, ID_Encode userID = Fail err ->
           SetPassword s userID password w
           = mkOutcome (Fail (Platform (CorruptUserIDError (ID_String userID) err)))
               (after_draw w)
               [EvGenerate password DefaultCost; EvUpdate; EvRollback])
        /\ (forall key user, ID_Encode userID = Ok key ->
            users (store w) !! userID = Some user ->
            (forall err, faults w OpenBucket = Some err ->
               SetPassword s userID password w
               = mkOutcome (Fail (Platform (UnavailablePasswordServiceError err)))
                   (after_draw w)
                   [EvGenerate password DefaultCost; EvUpdate; EvFindUser userID true;
                    EvBucket userpasswordBucket; EvRollback])
            /\ (forall err, faults w OpenBucket = None ->
                faults w WriteKey = Some err ->
                SetPassword s userID password w
                = mkOutcome (Fail (Platform (UnavailablePasswordServiceError err)))
                    (after_draw w)
                    [EvGenerate password DefaultCost; EvUpdate; EvFindUser userID true;
                     EvBucket userpasswordBucket;
                     EvPut userpasswordBucket key digest; EvRollback])
            /\ (forall err, faults w OpenBucket = None ->
                faults w WriteKey = None ->
                faults w CommitUpdate = Some err ->
                SetPassword s userID password w
                = mkOutcome (Fail (Foreign err)) (after_draw w)
                    [EvGenerate password DefaultCost; EvUpdate; EvFindUser userID true;
                     EvBucket userpasswordBucket;
                     EvPut userpasswordBucket key digest; EvRollback]))).
Proof.
  intros Hlong. rewrite SetPassword_long by assumption. split.
  - intros err Hgen. rewrite Hgen. reflexivity.
  - intros digest Hgen Hbegin. rewrite Hgen. clear Hgen.
    destruct w as [st fl rd]. unfold after_draw. cbn in *.
    unfold_service; unfold_calls; cbn. rewrite Hbegin. split.
    + intros err Henc. rewrite Henc. reflexivity.
    + intros key user Henc Huser. rewrite Henc; cbn. rewrite Huser; cbn.
      split; [|split].
      * intros err Hopen. rewrite Hopen. reflexivity.
      * intros err Hopen Hwrite. rewrite Hopen; cbn. rewrite Hwrite. reflexivity.
      * intros err Hopen Hwrite Hcommit. rewrite Hopen; cbn. rewrite Hwrite; cbn.
        rewrite Hcommit. reflexivity.
Qed.

Lemma SetPassword_failure_causes_witness :
  SetPassword (H := Sample.imports) Sample.svc 1%N "correcthorsebattery"
    Sample.w0_no_commit
  = mkOutcome (Fail (Foreign "tx closed")) (after_draw Sample.w0_no_commit)
      [EvGenerate "correcthorsebattery" 10; EvUpdate; EvFindUser 1%N true;
       EvBucket userpasswordBucket;
       EvPut userpasswordBucket "1" (String (ascii_of_nat 0) "correcthorsebattery");
       EvRollback].
Proof.
  destruct (SetPassword_failure_causes (H := Sample.imports) Sample.svc 1%N
              "correcthorsebattery" Sample.w0_no_commit ltac:(vm_compute; lia))
    as (_ & Hcauses).
  destruct (Hcauses (String (ascii_of_nat 0) "correcthorsebattery") eq_refl eq_refl)
    as (_ & Hstore).
  destruct (Hstore "1" "alice" eq_refl eq_refl) as (_ & _ & Hcommit).
  apply (Hcommit "tx closed"); reflexivity.
Defined.



(* ===================================================================== *)
(** ** ComparePassword: when it succeeds, which errors it returns *)
(* ===================================================================== *)

(** X5.  [ComparePassword] succeeds exactly when the read-only transaction
    begins, the identifier encodes, the user resolves, the bucket opens, the
    read succeeds and finds a digest under the encoded identifier, and the
    hashing strategy accepts the password against that digest. *)
Theorem ComparePassword_succeeds_iff `{Imports}
    (s : Service) (userID : ID) (password : string) (w : World) :
  res (ComparePassword s userID password w) = Ok tt
  <-> exists key user digest,
        faults w BeginView = None /\ ID_Encode userID = Ok key
        /\ users (store w) !! userID = Some user
        /\ faults w OpenBucket = None /\ faults w ReadKey = None
        /\ stored (store w) userpasswordBucket key = Some digest
        /\ CompareHashAndPassword (hasherOf s) digest password = Ok tt.
Proof.
  unfold ComparePassword. split.
  - apply compareUserPassword_Ok_inv.
  - intros (key & user & digest & Hview & Henc & Huser & Hopen & Hread & Hget & Hcmp).
    rewrite (compareUserPassword_run s userID password w key user digest)
      by assumption.
    cbn. rewrite Hcmp. reflexivity.
Qed.

(** X6.  The errors of [ComparePassword] form a closed set, each with its
    cause: the store's own error when the transaction does not begin,
    [CorruptUserIDError] when the identifier does not encode,
    [UnavailablePasswordServiceError] when the bucket does not open,
    [EIncorrectUser], or [EIncorrectPassword].  There is no check of the
    candidate's length: [EShortPassword] is never returned. *)
Theorem ComparePassword_errors `{Imports}
    (s : Service) (userID : ID) (password : string) (w : World) (e : error) :
  res (ComparePassword s userID password w) = Fail e ->
  ((exists err, faults w BeginView = Some err /\ e = Foreign err)
   \/ (exists err, ID_Encode userID = Fail err
                   /\ e = Platform (CorruptUserIDError (ID_String userID) err))
   \/ (users (store w) !! userID = None /\ e = Platform EIncorrectUser)
   \/ (exists err, faults w OpenBucket = Some err
                   /\ e = Platform (UnavailablePasswordServiceError err))
   \/ e = Platform EIncorrectPassword)
  /\ e <> Platform EShortPassword.
Proof.
  unfold ComparePassword. intros Hfail.
  pose proof (compareUserPassword_Fail_inv s userID password w e Hfail) as Hcases.
  split; [exact Hcases|].
  destruct Hcases as [(err & _ & ->)|[(err & _ & ->)|[(_ & ->)|[(err & _ & ->)| ->]]]];
    discriminate.
Qed.

Lemma ComparePassword_errors_witness :
  ((exists err, faults Sample.w1 BeginView = Some err
                /\ Platform EIncorrectUser = Foreign err)
   \/ (exists err, ID_Encode (Imports := Sample.imports) 3%N = Fail err
                   /\ Platform EIncorrectUser
                      = Platform (CorruptUserIDError
                                    (ID_String (Imports := Sample.imports) 3%N) err))
   \/ (users (store Sample.w1) !! 3%N = None
       /\ Platform EIncorrectUser = Platform EIncorrectUser)
   \/ (exists err, faults Sample.w1 OpenBucket = Some err
                   /\ Platform EIncorrectUser
                      = Platform (UnavailablePasswordServiceError err))
   \/ Platform EIncorrectUser = Platform EIncorrectPassword)
  /\ Platform EIncorrectUser <> Platform EShortPassword.
Proof.
  apply (ComparePassword_errors (H := Sample.imports) Sample.svc 3%N "short" Sample.w1).
  vm_compute. reflexivity.
Defined.

(* ===================================================================== *)
(** ** How the operations compose *)
(* ===================================================================== *)

(** X7.  When the old password is accepted, [CompareAndSetPassword] is
    [SetPassword] with the new password: the same result and the same world
    afterwards. *)
Theorem CompareAndSetPassword_is_SetPassword `{Imports}
    (s : Service) (userID : ID) (old new : string) (w : World) :
  res (ComparePassword s userID old w) = Ok tt ->
  res (CompareAndSetPassword s userID old new w) = res (SetPassword s userID new w)
  /\ final (CompareAndSetPassword s userID old new w) = final (SetPassword s userID new w).
Proof.
  unfold ComparePassword. intros Hok.
  destruct (Nat.lt_ge_cases (String.length new) MinPasswordLength) as [Hshort|Hlong].
  { destruct (short_password_outcome s userID old new w Hshort) as (Hset & Hcas).
    rewrite Hset, Hcas. auto. }
  rewrite SetPassword_long, CompareAndSetPassword_long by assumption.
  destruct (GenerateFromPassword _ _ _ _) as [digest|err]; [|auto].
  pose proof (compareUserPassword_final s userID old (after_draw w)) as Hfin.
  destruct (compareUserPassword_rand s userID old w (S (rand w))) as [Hres _].
  change {| store := store w; faults := faults w; rand := S (rand w) |}
    with (after_draw w) in Hres.
  rewrite Hok in Hres.
  destruct (compareUserPassword s userID old (after_draw w)) as [r w1 t1].
  cbn in Hfin, Hres. subst r w1.
  destruct (setPasswordHash s userID digest (after_draw w)). auto.
Qed.

Lemma CompareAndSetPassword_is_SetPassword_witness :
  res (CompareAndSetPassword (H := Sample.imports) Sample.svc 1%N
         "correcthorsebattery" "newpassword123" Sample.w1)
  = res (SetPassword (H := Sample.imports) Sample.svc 1%N "newpassword123" Sample.w1)
  /\ final (CompareAndSetPassword (H := Sample.imports) Sample.svc 1%N
              "correcthorsebattery" "newpassword123" Sample.w1)
     = final (SetPassword (H := Sample.imports) Sample.svc 1%N "newpassword123"
                Sample.w1).
Proof.
  apply (CompareAndSetPassword_is_SetPassword (H := Sample.imports) Sample.svc 1%N
           "correcthorsebattery" "newpassword123" Sample.w1).
  vm_compute. reflexivity.
Defined.

(** X8.  [SetPassword] for one user does not touch another: for a user whose
    identifier encodes differently, every [ComparePassword] gives after the
    call what it gave before it, whether the call succeeded or failed. *)
Theorem SetPassword_frames_other_users `{Imports}
    (s : Service) (userID other : ID) (password : string) (w : World) :
  ID_Encode other <> ID_Encode userID ->
  forall q,
    res (ComparePassword s other q (final (SetPassword s userID password w)))
    = res (ComparePassword s other q w).
Proof.
  intros Hne q. unfold ComparePassword.
  destruct (Nat.lt_ge_cases (String.length password) MinPasswordLength)
    as [Hshort|Hlong].
  { destruct (short_password_outcome s userID "" password w Hshort) as (Hset & _).
    rewrite Hset. reflexivity. }
  rewrite SetPassword_long by assumption.
  destruct (GenerateFromPassword _ _ _ _) as [digest|err].
  - pose proof (setPasswordHash_Ok_inv s userID digest (after_draw w)) as Hinv.
    pose proof (setPasswordHash_Fail_store s userID digest (after_draw w)) as Hfail.
    destruct (setPasswordHash s userID digest (after_draw w)) as [[[]|e] w2 t2];
      cbn in *.
    + destruct (Hinv eq_refl) as (key & user & Henc & _ & _ & ->).
      apply compareUserPassword_ext; try reflexivity.
      intros key' Henc'. cbn. apply stored_store_put_ne. congruence.
    + rewrite (Hfail e eq_refl). apply compareUserPassword_ext; reflexivity.
  - cbn. apply compareUserPassword_ext; reflexivity.
Qed.

Lemma SetPassword_frames_other_users_witness :
  res (ComparePassword (H := Sample.imports) Sample.svc 1%N "correcthorsebattery"
         (final (SetPassword (H := Sample.imports) Sample.svc 2%N "anotherpassword"
                   Sample.w1)))
  = res (ComparePassword (H := Sample.imports) Sample.svc 1%N "correcthorsebattery"
           Sample.w1).
Proof.
  apply (SetPassword_frames_other_users (H := Sample.imports) Sample.svc 2%N 1%N
           "anotherpassword" Sample.w1).
  vm_compute. discriminate.
Defined.

(** X9.  A second successful [SetPassword] for a user overwrites the first:
    the store after both is the store before both with the second digest
    alone under the user's key. *)
Theorem SetPassword_overwrites `{Imports}
    (s : Service) (userID : ID) (first second : string) (w : World) :
  res (SetPassword s userID first w) = Ok tt ->
  res (SetPassword s userID second (final (SetPassword s userID first w))) = Ok tt ->
  exists key digest,
    ID_Encode userID = Ok key
    /\ GenerateFromPassword (hasherOf s) second DefaultCost (S (rand w)) = Ok digest
    /\ store (final (SetPassword s userID second (final (SetPassword s userID first w))))
       = store_put (store w) userpasswordBucket key digest.
Proof.
  assert (Hstep : forall p v,
    res (SetPassword s userID p v) = Ok tt ->
    exists key digest,
      ID_Encode userID = Ok key
      /\ GenerateFromPassword (hasherOf s) p DefaultCost (rand v) = Ok digest
      /\ final (SetPassword s userID p v)
         = with_store (after_draw v) (store_put (store v) userpasswordBucket key digest)).
  { intros p v.
    destruct (Nat.lt_ge_cases (String.length p) MinPasswordLength) as [Hshort|Hlong].
    { destruct (short_password_outcome s userID "" p v Hshort) as (Hset & _).
      rewrite Hset. cbn. discriminate. }
    rewrite SetPassword_long by assumption.
    destruct (GenerateFromPassword _ _ _ _) as [digest|err]; [|cbn; discriminate].
    pose proof (setPasswordHash_Ok_inv s userID digest (after_draw v)) as Hinv.
    destruct (setPasswordHash s userID digest (after_draw v)) as [r w2 t2].
    cbn in *. intros Hok.
    destruct (Hinv Hok) as (key & user & Henc & _ & _ & ->). eauto. }
  intros Hfirst Hsecond.
  destruct (Hstep first w Hfirst) as (key & digest1 & Henc & _ & Hfinal1).
  destruct (Hstep second _ Hsecond) as (key' & digest2 & Henc' & Hgen2 & Hfinal2).
  rewrite Hfinal2, Hfinal1 in *. cbn in *.
  assert (key' = key) by congruence. subst key'.
  exists key, digest2. repeat split; try assumption.
  apply store_put_twice.
Qed.

Lemma SetPassword_overwrites_witness :
  exists key digest,
    ID_Encode (Imports := Sample.imports) 1%N = Ok key
    /\ GenerateFromPassword (hasherOf (H := Sample.imports) Sample.svc)
         "newpassword123" (DefaultCost (H := Sample.imports)) (S (rand Sample.w0))
       = Ok digest
    /\ store (final (SetPassword (H := Sample.imports) Sample.svc 1%N "newpassword123"
                       (final (SetPassword (H := Sample.imports) Sample.svc 1%N
                                 "correcthorsebattery" Sample.w0))))
       = store_put (store Sample.w0) userpasswordBucket key digest.
Proof.
  apply (SetPassword_overwrites (H := Sample.imports) Sample.svc 1%N
           "correcthorsebattery" "newpassword123" Sample.w0);
    vm_compute; reflexivity.
Defined.

(** X10.  [CompareAndSetPassword] cannot give a user a first password: when
    no digest is stored for the user it fails whatever the old password, and
    the store it leaves is the store it found. *)
Theorem CompareAndSetPassword_needs_a_password `{Imports}
    (s : Service) (userID : ID) (old new : string) (w : World) :
  (forall key, ID_Encode userID = Ok key ->
     stored (store w) userpasswordBucket key = None) ->
  res (CompareAndSetPassword s userID old new w) <> Ok tt
  /\ store (final (CompareAndSetPassword s userID old new w)) = store w.
Proof.
  intros Hnone.
  destruct (Nat.lt_ge_cases (String.length new) MinPasswordLength) as [Hshort|Hlong].
  { destruct (short_password_outcome s userID old new w Hshort) as (_ & Hcas).
    rewrite Hcas. cbn. split; [discriminate|reflexivity]. }
  rewrite CompareAndSetPassword_long by assumption.
  destruct (GenerateFromPassword _ _ _ _) as [digest|err];
    [|cbn; split; [discriminate|reflexivity]].
  pose proof (compareUserPassword_final s userID old (after_draw w)) as Hfin.
  pose proof (compareUserPassword_Ok_inv s userID old (after_draw w)) as Hinv.
  destruct (compareUserPassword s userID old (after_draw w)) as [[[]|e] w1 t1];
    cbn in Hfin, Hinv; subst w1.
  - destruct (Hinv eq_refl) as (key & user & stored_digest & _ & Henc & _ & _ & _ & Hget & _).
    cbn in Hget. rewrite (Hnone key Henc) in Hget. discriminate.
  - cbn. split; [discriminate|reflexivity].
Qed.

Lemma CompareAndSetPassword_needs_a_password_witness :
  res (CompareAndSetPassword (H := Sample.imports) Sample.svc 2%N "" "newpassword123"
         Sample.w1)
  <> Ok tt
  /\ store (final (CompareAndSetPassword (H := Sample.imports) Sample.svc 2%N ""
                     "newpassword123" Sample.w1))
     = store Sample.w1.
Proof.
  apply (CompareAndSetPassword_needs_a_password (H := Sample.imports) Sample.svc 2%N ""
           "newpassword123" Sample.w1).
  intros key Henc. vm_compute in Henc. injection Henc as <-.
  vm_compute. reflexivity.
Defined.

(* ===================================================================== *)
(** ** SetPassword: its errors, and what it does not read *)
(* ===================================================================== *)

(** X11.  The errors of [SetPassword] form a closed set, each with its
    cause: [EShortPassword] for a password below the minimum length,
    [InternalPasswordHashError] when the hashing strategy fails,
    [CorruptUserIDError] when the identifier does not encode,
    [EIncorrectUser] when the user does not resolve,
    [UnavailablePasswordServiceError] when the bucket does not open or the
    write fails, and the store's own error when the transaction does not
    begin or does not commit.  [EIncorrectPassword] is never returned. *)
Theorem SetPassword_errors `{Imports}
    (s : Service) (userID : ID) (password : string) (w : World) (e : error) :
  res (SetPassword s userID password w) = Fail e ->
  (((String.length password < MinPasswordLength)%nat /\ e = Platform EShortPassword)
   \/ (exists err,
         GenerateFromPassword (hasherOf s) password DefaultCost (rand w) = Fail err
         /\ e = Platform (InternalPasswordHashError err))
   \/ (exists err, ID_Encode userID = Fail err
                   /\ e = Platform (CorruptUserIDError (ID_String userID) err))
   \/ (users (store w) !! userID = None /\ e = Platform EIncorrectUser)
   \/ (exists err, (faults w OpenBucket = Some err \/ faults w WriteKey = Some err)
                   /\ e = Platform (UnavailablePasswordServiceError err))
   \/ (exists err, (faults w BeginUpdate = Some err \/ faults w CommitUpdate = Some err)
                   /\ e = Foreign err))
  /\ e <> Platform EIncorrectPassword.
Proof.
  intros Hfail.
  match goal with |- ?cases /\ _ => assert (Hcases : cases) end.
  { destruct (Nat.lt_ge_cases (String.length password) MinPasswordLength)
      as [Hshort|Hlong].
    { destruct (short_password_outcome s userID "" password w Hshort) as (Hset & _).
      rewrite Hset in Hfail. cbn in Hfail. left. split; congruence. }
    right. rewrite SetPassword_long in Hfail by assumption.
    destruct (GenerateFromPassword _ _ _ _) as [digest|err];
      [|cbn in Hfail; left; exists err; split; congruence].
    right.
    assert (Hset : res (setPasswordHash s userID digest (after_draw w)) = Fail e)
      by (destruct (setPasswordHash _ _ _ _); exact Hfail).
    clear Hfail. destruct w as [st fl rd]. unfold after_draw in Hset.
    crunch; eauto 10. }
  split; [exact Hcases|].
  destruct Hcases as
    [(_ & ->)|[(err & _ & ->)|[(err & _ & ->)|[(_ & ->)|[(err & _ & ->)|(err & _ & ->)]]]]];
    discriminate.
Qed.

Lemma SetPassword_errors_witness :
  (((String.length "correcthorsebattery" < MinPasswordLength)%nat
    /\ Platform EIncorrectUser = Platform EShortPassword)
   \/ (exists err,
         GenerateFromPassword (hasherOf (H := Sample.imports) Sample.svc)
           "correcthorsebattery" (DefaultCost (H := Sample.imports)) (rand Sample.w0)
         = Fail err
         /\ Platform EIncorrectUser = Platform (InternalPasswordHashError err))
   \/ (exists err, ID_Encode (Imports := Sample.imports) 3%N = Fail err
                   /\ Platform EIncorrectUser
                      = Platform (CorruptUserIDError
                                    (ID_String (Imports := Sample.imports) 3%N) err))
   \/ (users (store Sample.w0) !! 3%N = None
       /\ Platform EIncorrectUser = Platform EIncorrectUser)
   \/ (exists err, (faults Sample.w0 OpenBucket = Some err
                    \/ faults Sample.w0 WriteKey = Some err)
                   /\ Platform EIncorrectUser
                      = Platform (UnavailablePasswordServiceError err))
   \/ (exists err, (faults Sample.w0 BeginUpdate = Some err
                    \/ faults Sample.w0 CommitUpdate = Some err)
                   /\ Platform EIncorrectUser = Foreign err))
  /\ Platform EIncorrectUser <> Platform EIncorrectPassword.
Proof.
  apply (SetPassword_errors (H := Sample.imports) Sample.svc 3%N "correcthorsebattery"
           Sample.w0).
  vm_compute. reflexivity.
Defined.

(** X12.  [EShortPassword] is the error of a short new password and of
    nothing else: [SetPassword] and [CompareAndSetPassword] return it exactly
    when the new password is shorter than [MinPasswordLength]. *)
Theorem EShortPassword_iff_short `{Imports}
    (s : Service) (userID : ID) (old password : string) (w : World) :
  (res (SetPassword s userID password w) = Fail (Platform EShortPassword)
   <-> (String.length password < MinPasswordLength)%nat)
  /\ (res (CompareAndSetPassword s userID old password w) = Fail (Platform EShortPassword)
      <-> (String.length password < MinPasswordLength)%nat).
Proof.
  destruct (Nat.lt_ge_cases (String.length password) MinPasswordLength)
    as [Hshort|Hlong].
  { destruct (short_password_outcome s userID old password w Hshort) as (Hset & Hcas).
    rewrite Hset, Hcas. cbn. tauto. }
  assert (Hnot : ~ (String.length password < MinPasswordLength)%nat) by lia.
  rewrite SetPassword_long, CompareAndSetPassword_long by assumption.
  destruct (GenerateFromPassword _ _ _ _) as [digest|err];
    [|cbn; split; (split; [discriminate|contradiction])].
  assert (Hset : res (setPasswordHash s userID digest (after_draw w))
                 <> Fail (Platform EShortPassword)).
  { destruct w as [st fl rd]. unfold after_draw. crunch; discriminate. }
  pose proof (compareUserPassword_final s userID old (after_draw w)) as Hfin.
  pose proof (compareUserPassword_Fail_inv s userID old (after_draw w)) as Hcmp.
  destruct (compareUserPassword s userID old (after_draw w)) as [[[]|e] w1 t1];
    cbn in Hfin, Hcmp; subst w1;
    destruct (setPasswordHash s userID digest (after_draw w)) as [r w2 t2];
    cbn in *; (split; (split; [|contradiction])); intros Hres;
    try (exfalso; apply Hset; exact Hres).
  injection Hres as ->.
  destruct (Hcmp _ eq_refl)
    as [(err & _ & He)|[(err & _ & He)|[(_ & He)|[(err & _ & He)|He]]]];
    discriminate.
Qed.

(** X13.  [SetPassword] overrides without reading: its result and the calls
    it makes are the same in two worlds that differ only in what their
    buckets hold. *)
Theorem SetPassword_ignores_stored_digests `{Imports}
    (s : Service) (userID : ID) (password : string) (w w' : World) :
  users (store w) = users (store w') ->
  faults w = faults w' ->
  rand w = rand w' ->
  res (SetPassword s userID password w) = res (SetPassword s userID password w')
  /\ trace (SetPassword s userID password w) = trace (SetPassword s userID password w').
Proof.
  intros Husers Hfaults Hrand.
  destruct (Nat.lt_ge_cases (String.length password) MinPasswordLength)
    as [Hshort|Hlong].
  { destruct (short_password_outcome s userID "" password w Hshort) as (Hset & _).
    destruct (short_password_outcome s userID "" password w' Hshort) as (Hset' & _).
    rewrite Hset, Hset'. auto. }
  rewrite !SetPassword_long by assumption.
  destruct w as [[us bs] fl rd], w' as [[us' bs'] fl' rd']. cbn in *. subst us' fl' rd'.
  destruct (GenerateFromPassword _ _ _ _) as [digest|err]; [|auto].
  unfold after_draw. crunch; auto.
Qed.

Lemma SetPassword_ignores_stored_digests_witness :
  res (SetPassword (H := Sample.imports) Sample.svc 1%N "newpassword123" Sample.w0)
  = res (SetPassword (H := Sample.imports) Sample.svc 1%N "newpassword123"
           Sample.w1_fresh)
  /\ trace (SetPassword (H := Sample.imports) Sample.svc 1%N "newpassword123" Sample.w0)
     = trace (SetPassword (H := Sample.imports) Sample.svc 1%N "newpassword123"
                Sample.w1_fresh).
Proof.
  apply (SetPassword_ignores_stored_digests (H := Sample.imports) Sample.svc 1%N
           "newpassword123" Sample.w0 Sample.w1_fresh);
    vm_compute; reflexivity.
Defined.
